(** * webhook2stdout: the request-to-document mapping of [main.go]

    A shallow embedding of [buildOutput], [mergeRootObject], [extractValue],
    [routeParams] and [parseBody], and the properties of the mapping engine
    proved over it; with them [parseLogLevel], [defaultConfig] and the
    earlier [buildOutput] and [mergeRoot] that the file keeps.

    Go values of static type [any] are modelled with their dynamic type,
    because [buildOutput] branches on it through the type assertion
    [value.(map[string]any)].  Go maps are [gmap]s with [string] keys. *)

From Stdlib Require Import Floats.SpecFloat Strings.Byte.
From stdpp Require Import gmap strings list fin_maps.

Set Default Proof Using "Type".
#[local] Set Warnings "-clear-no-such-hyp".

(** ** Values *)

(** A value held in an [any].  The first six constructors are what
    [json.Unmarshal] stores into an [any] ([nil], [bool], [float64],
    [string], [[]any], [map[string]any]); [VString] is also the dynamic type
    of [c.Method()], [c.Path()], [c.IP()] and of [string(raw)].  The last two
    are the maps the request context hands out: [map[string]string]
    ([c.Queries()], [routeParams]) and [map[string][]string]
    ([c.GetReqHeaders()]).  They are maps, but not of type
    [map[string]any]. *)
#[warnings="-register-all"]
Inductive value : Type :=
| VNil
| VBool (b : bool)
| VNumber (f : spec_float)
| VString (s : string)
| VArray (l : list value)
| VObject (m : gmap string value)
| VStringMap (m : gmap string string)
| VHeaderMap (m : gmap string (list string)).

(** The type assertion [obj, ok := value.(map[string]any)]: it succeeds on
    the dynamic type [map[string]any] only. *)
Definition assertObject (v : value) : option (gmap string value) :=
  match v with
  | VObject m => Some m
  | _ => None
  end.

(** What a reader of the emitted JSON calls an object: every Go map is
    marshalled as one. *)
Definition isJSONObject (v : value) : bool :=
  match v with
  | VObject _ | VStringMap _ | VHeaderMap _ => true
  | _ => false
  end.

(** ** Sources and mapping rules *)

Definition Source := string.

Definition SourceBody : Source := "body".
Definition SourceHeaders : Source := "headers".
Definition SourceQuery : Source := "query".
Definition SourceParams : Source := "params".
Definition SourceMethod : Source := "method".
Definition SourcePath : Source := "path".
Definition SourceIP : Source := "ip".

Definition supportedSources : list Source :=
  [SourceBody; SourceHeaders; SourceQuery; SourceParams;
   SourceMethod; SourcePath; SourceIP].

Record FieldMapping := {
  From : Source;
  To : string;
  Root : bool
}.

(** ** Errors *)

(** One constructor per [fmt.Errorf] call of [main.go]; the arguments are
    the values the format string quotes with [%q], and the wrapped error for
    [%w]. *)
Inductive error : Type :=
| ErrUnsupportedSource (source : Source)
    (* "unsupported source %q" *)
| ErrRootKeyCollision (k : string)
    (* "root key collision on %q" *)
| ErrMapping (from : Source) (to : string) (err : error)
    (* "mapping %q -> %q: %w" *)
| ErrMappingAsRoot (from : Source) (err : error)
    (* "mapping %q as root: %w" *)
| ErrObjectRootAfterNonObject (from : Source)
    (* "mapping %q cannot merge object root when non-object root already set" *)
| ErrNonObjectRootAfterObject (from : Source)
    (* "mapping %q cannot set non-object root when object output already exists" *)
| ErrNonObjectRootTwice (from : Source)
    (* "mapping %q cannot set non-object root more than once" *)
| ErrKeyedAfterNonObjectRoot (from : Source)
    (* "mapping %q cannot add keyed fields when non-object root is already set" *).

(** The three error kinds the design distinguishes. *)
Inductive ErrorKind := UnsupportedSourceError | RootCollisionError | MixedRootError.

(** An error wrapped with [%w] keeps the kind of the error it wraps. *)
Fixpoint errorKind (e : error) : ErrorKind :=
  match e with
  | ErrUnsupportedSource _ => UnsupportedSourceError
  | ErrRootKeyCollision _ => RootCollisionError
  | ErrMapping _ _ err => errorKind err
  | ErrMappingAsRoot _ err => errorKind err
  | ErrObjectRootAfterNonObject _
  | ErrNonObjectRootAfterObject _
  | ErrNonObjectRootTwice _
  | ErrKeyedAfterNonObjectRoot _ => MixedRootError
  end.

(** A Go [(T, error)] result. *)
Inductive result (A : Type) : Type :=
| Ok (a : A)
| Err (e : error).
Arguments Ok {A} a.
Arguments Err {A} e.

(** [if err != nil { return nil, err }] as a monad, with the [x ← r; k]
    notation. *)
#[global] Instance result_ret : MRet result := fun A a => Ok a.
#[global] Instance result_bind : MBind result := fun A B k r =>
  match r with
  | Ok a => k a
  | Err e => Err e
  end.

Definition isOk {A : Type} (r : result A) : bool :=
  match r with Ok _ => true | Err _ => false end.

(** ** The request context *)

(** [c.Route()]: the matched route, of which [routeParams] reads [Params]. *)
Record RouteInfo := { Route_Params : list string }.

(** What [extractValue] and [routeParams] read of a [fiber.Ctx].
    [QueryArgs] is the parsed query string, one pair per [name=value] in the
    order received. *)
Record Ctx := {
  Body : list byte;
  GetReqHeaders : gmap string (list string);
  QueryArgs : list (string * string);
  Route : option RouteInfo;
  Params : string → string;
  Method : string;
  Path : string;
  IP : string
}.

(** [c.Queries()] of fiber v3 has type [map[string]string]: it ranges over
    the query arguments and assigns [m[key] = value] for each, so a name that
    is repeated keeps the value received last. *)
Definition Queries (c : Ctx) : gmap string string :=
  fold_left (fun m kv => <[kv.1 := kv.2]> m) (QueryArgs c) ∅.

(** [json.Unmarshal(raw, &parsed)] with [parsed] of type [any] is the Go
    standard library: the development is parametric in it.  [None] is a
    decoding error. *)
Class JSONDecoder := json_Unmarshal : list byte → option value.

Section Engine.
Context `{JSONDecoder}.

(** ** [parseBody] *)

Definition parseBody (raw : list byte) : result value :=
  if (length raw =? 0)%nat then Ok (VObject ∅)
  else match json_Unmarshal raw with
       | None => Ok (VString (String.string_of_list_byte raw))
       | Some parsed => Ok parsed
       end.

(** ** [routeParams] *)

Definition routeParams (c : Ctx) : gmap string string :=
  match Route c with
  | None => ∅
  | Some route =>
      fold_left (fun params key => <[key := Params c key]> params)
                (Route_Params route) ∅
  end.

(** ** [extractValue] *)

Definition extractValue (c : Ctx) (source : Source) : result value :=
  if String.eqb source SourceBody then parseBody (Body c)
  else if String.eqb source SourceHeaders then Ok (VHeaderMap (GetReqHeaders c))
  else if String.eqb source SourceQuery then Ok (VStringMap (Queries c))
  else if String.eqb source SourceParams then Ok (VStringMap (routeParams c))
  else if String.eqb source SourceMethod then Ok (VString (Method c))
  else if String.eqb source SourcePath then Ok (VString (Path c))
  else if String.eqb source SourceIP then Ok (VString (IP c))
  else Err (ErrUnsupportedSource source).

(** ** [mergeRootObject] *)

(** The body of [for k, v := range obj], over the entries in the order the
    range visits them.  [dst] is the map as mutated so far. *)
Fixpoint mergeRootEntries (dst : gmap string value)
    (entries : list (string * value)) : result (gmap string value) :=
  match entries with
  | [] => Ok dst
  | (k, v) :: rest =>
      match dst !! k with
      | Some _ => Err (ErrRootKeyCollision k)
      | None => mergeRootEntries (<[k := v]> dst) rest
      end
  end.

(** Go leaves the order of a map range unspecified; [map_to_list] is one
    such order.  [mergeRootEntries_order] below shows that success, the
    merged map and the kind of failure do not depend on the order. *)
Definition mergeRootObject (dst obj : gmap string value)
    : result (gmap string value) :=
  mergeRootEntries dst (map_to_list obj).

(** ** [buildOutput] *)

(** The variables of [buildOutput] that live across loop iterations. *)
Record state := {
  output : gmap string value;
  rootValue : value;
  hasRootValue : bool
}.

(** [output := make(map[string]any, len(mappings))], [rootValue] the zero
    [any] and [hasRootValue] false. *)
Definition initState : state :=
  {| output := ∅; rootValue := VNil; hasRootValue := false |}.

(** One iteration of [for _, m := range mappings]: the new state on
    [continue] or at the end of the body, the error on [return nil, err]. *)
Definition loopBody (c : Ctx) (st : state) (m : FieldMapping) : result state :=
  match extractValue c (From m) with
  | Err err => Err (ErrMapping (From m) (To m) err)
  | Ok value =>
      if Root m then
        match assertObject value with
        | Some obj =>
            if hasRootValue st then Err (ErrObjectRootAfterNonObject (From m))
            else
              match mergeRootObject (output st) obj with
              | Err err => Err (ErrMappingAsRoot (From m) err)
              | Ok dst =>
                  Ok {| output := dst; rootValue := rootValue st;
                        hasRootValue := hasRootValue st |}
              end
        | None =>
            if (0 <? size (output st))%nat
            then Err (ErrNonObjectRootAfterObject (From m))
            else if hasRootValue st then Err (ErrNonObjectRootTwice (From m))
            else Ok {| output := output st; rootValue := value;
                       hasRootValue := true |}
        end
      else if hasRootValue st then Err (ErrKeyedAfterNonObjectRoot (From m))
      else Ok {| output := <[To m := value]> (output st);
                 rootValue := rootValue st;
                 hasRootValue := hasRootValue st |}
  end.

(** The loop, from state [st] over the remaining [mappings]. *)
Fixpoint rangeMappings (c : Ctx) (st : state) (mappings : list FieldMapping)
    : result state :=
  match mappings with
  | [] => Ok st
  | m :: rest => st' ← loopBody c st m; rangeMappings c st' rest
  end.

(** The two [return]s after the loop. *)
Definition finish (st : state) : value :=
  if hasRootValue st then rootValue st else VObject (output st).

Definition buildOutput (c : Ctx) (mappings : list FieldMapping) : result value :=
  st ← rangeMappings c initState mappings; Ok (finish st).

End Engine.

(** ** The design's vocabulary, for stating its properties *)

(** A request whose query string carried [name=v] expects the document
    extracted for [query] to hold [v] under [name]: as the string of a
    [map[string]string], or as one of the strings of a
    [map[string][]string]. *)
Definition associates (doc : value) (name v : string) : Prop :=
  match doc with
  | VStringMap m => m !! name = Some v
  | VHeaderMap m => ∃ vs, m !! name = Some vs ∧ v ∈ vs
  | _ => False
  end.

(** The value received last for [name] among the query arguments. *)
Definition lastValue (args : list (string * string)) (name : string)
    : option string :=
  last (filter (fun kv => kv.1 = name) args).*2.

(** A root rule whose source is not an object in the sense of
    [assertObject], evaluated in context [c]. *)
Definition scalarRootRule `{JSONDecoder} (c : Ctx) (m : FieldMapping) : bool :=
  Root m &&
  match extractValue c (From m) with
  | Ok value => match assertObject value with Some _ => false | None => true end
  | Err _ => false
  end.

(** The loop invariant of [buildOutput]: a non-object root excludes keyed
    output. *)
Definition rootExcludesKeyed (st : state) : Prop :=
  hasRootValue st = true → output st = ∅.

(** A value stored as the non-object root is one the type assertion
    rejected. *)
Definition rootIsNotObject (st : state) : Prop :=
  hasRootValue st = true → assertObject (rootValue st) = None.

(** ** Concrete requests *)

(** The double quote, and a body written as text. *)
Definition dq : string := String (Ascii.ascii_of_nat 34) EmptyString.
Definition bytesOf (s : string) : list byte := String.list_byte_of_string s.

(** [{"id":"1"}], [{"event":"x"}] and [not-json]. *)
Definition bodyId : list byte :=
  bytesOf ("{" +:+ dq +:+ "id" +:+ dq +:+ ":" +:+ dq +:+ "1" +:+ dq +:+ "}").
Definition bodyEvent : list byte :=
  bytesOf ("{" +:+ dq +:+ "event" +:+ dq +:+ ":" +:+ dq +:+ "x" +:+ dq +:+ "}").
Definition bodyNotJSON : list byte := bytesOf "not-json".

(** A decoder for the closed examples.  On the three bodies above it
    answers as [encoding/json] does: the two objects decode to a
    [map[string]any] with one string entry, and [not-json] is rejected.  It
    is not applied to any other body. *)
Definition tableUnmarshal (raw : list byte) : option value :=
  let s := String.string_of_list_byte raw in
  if String.eqb s (String.string_of_list_byte bodyId)
  then Some (VObject {[ "id" := VString "1" ]})
  else if String.eqb s (String.string_of_list_byte bodyEvent)
  then Some (VObject {[ "event" := VString "x" ]})
  else None.

#[global] Instance tableDecoder : JSONDecoder := tableUnmarshal.

(** [POST /hook/7] on the route [/hook/:id], with the given body and query
    arguments. *)
Definition request (body : list byte) (args : list (string * string)) : Ctx :=
  {| Body := body;
     GetReqHeaders := {[ "Content-Type" := ["application/json"] ]};
     QueryArgs := args;
     Route := Some {| Route_Params := ["id"] |};
     Params := fun key => if String.eqb key "id" then "7" else "";
     Method := "POST";
     Path := "/hook/7";
     IP := "127.0.0.1" |}.

Definition keyed (from : Source) (to : string) : FieldMapping :=
  {| From := from; To := to; Root := false |}.
Definition root (from : Source) : FieldMapping :=
  {| From := from; To := ""; Root := true |}.

(** ** Configuration *)

(** [slog.Level] is an [int]; these are the four levels of [log/slog].  A
    handler with minimum level [min] lets a record of level [l] through when
    [min <= l]. *)
Definition LevelDebug : Z := -4.
Definition LevelInfo : Z := 0.
Definition LevelWarn : Z := 4.
Definition LevelError : Z := 8.

Definition levelEnabled (min l : Z) : bool := (min <=? l)%Z.

(** The error of [parseLogLevel]:
    "unsupported log_level %q (use debug, info, warn, or error)". *)
Inductive levelError := ErrUnsupportedLogLevel (level : string).

(** [parseLogLevel] returns the pair [(slog.Level, error)]; [None] is the
    [nil] error. *)
Definition parseLogLevel (level : string) : Z * option levelError :=
  if String.eqb level "" || String.eqb level "info" then (LevelInfo, None)
  else if String.eqb level "debug" then (LevelDebug, None)
  else if String.eqb level "warn" then (LevelWarn, None)
  else if String.eqb level "error" then (LevelError, None)
  else (0%Z, Some (ErrUnsupportedLogLevel level)).

Record Config := {
  Port : Z;
  Route_ : string;
  Pretty : bool;
  LogJSON : bool;
  LogLevel : string;
  AckStatus : Z;
  AckBody : gmap string value;
  Mappings : list FieldMapping
}.

Definition defaultConfig : Config :=
  {| Port := 8080;
     Route_ := "/";
     Pretty := false;
     LogJSON := true;
     LogLevel := "info";
     AckStatus := 200;
     AckBody := {[ "ok" := VBool true ]};
     Mappings :=
       [ {| From := SourceBody; To := "body"; Root := false |};
         {| From := SourceHeaders; To := "headers"; Root := false |};
         {| From := SourceQuery; To := "query"; Root := false |};
         {| From := SourceParams; To := "params"; Root := false |};
         {| From := SourceMethod; To := "method"; Root := false |};
         {| From := SourcePath; To := "path"; Root := false |};
         {| From := SourceIP; To := "ip"; Root := false |} ] |}.

(** ** The earlier [buildOutput] *)

(** [main.go] also holds the earlier version of the engine, in which a root
    rule takes objects only: [mergeRoot] refuses every other value, and
    [buildOutput] returns a [map[string]any].  Its [extractValue],
    [routeParams] and [parseBody] are those above, word for word. *)
Module Legacy.

(** The errors of the earlier version: those of [extractValue] and of the
    range loop as above, and "root mapping requires an object source". *)
Inductive error : Type :=
| ErrUnsupportedSource (source : Source)
| ErrRootRequiresObject
| ErrRootKeyCollision (k : string)
| ErrMapping (from : Source) (to : string) (err : error)
| ErrMappingAsRoot (from : Source) (err : error).

(** A [(T, error)] result of the earlier version. *)
Inductive outcome (A : Type) : Type :=
| Done (a : A)
| Failed (e : error).
Arguments Done {A} a.
Arguments Failed {A} e.

Section Engine.
Context `{JSONDecoder}.

(** [extractValue] has one error, with the same text in both versions. *)
Definition extractValue (c : Ctx) (source : Source) : outcome value :=
  match extractValue c source with
  | Ok v => Done v
  | Err _ => Failed (ErrUnsupportedSource source)
  end.

Fixpoint mergeRootEntries (dst : gmap string value)
    (entries : list (string * value)) : outcome (gmap string value) :=
  match entries with
  | [] => Done dst
  | (k, v) :: rest =>
      match dst !! k with
      | Some _ => Failed (ErrRootKeyCollision k)
      | None => mergeRootEntries (<[k := v]> dst) rest
      end
  end.

Definition mergeRoot (dst : gmap string value) (v : value)
    : outcome (gmap string value) :=
  match assertObject v with
  | None => Failed ErrRootRequiresObject
  | Some obj => mergeRootEntries dst (map_to_list obj)
  end.

(** One iteration of the loop; the only variable that lives across
    iterations is [output]. *)
Definition loopBody (c : Ctx) (output : gmap string value) (m : FieldMapping)
    : outcome (gmap string value) :=
  match extractValue c (From m) with
  | Failed err => Failed (ErrMapping (From m) (To m) err)
  | Done value =>
      if Root m then
        match mergeRoot output value with
        | Failed err => Failed (ErrMappingAsRoot (From m) err)
        | Done dst => Done dst
        end
      else Done (<[To m := value]> output)
  end.

Fixpoint rangeMappings (c : Ctx) (output : gmap string value)
    (mappings : list FieldMapping) : outcome (gmap string value) :=
  match mappings with
  | [] => Done output
  | m :: rest =>
      match loopBody c output m with
      | Failed e => Failed e
      | Done output' => rangeMappings c output' rest
      end
  end.

Definition buildOutput (c : Ctx) (mappings : list FieldMapping)
    : outcome (gmap string value) :=
  rangeMappings c ∅ mappings.

End Engine.
End Legacy.

(** The error of the current version with the same text as an error of the
    earlier one; "root mapping requires an object source" has none. *)
Fixpoint sameError (e : Legacy.error) : option error :=
  match e with
  | Legacy.ErrUnsupportedSource source => Some (ErrUnsupportedSource source)
  | Legacy.ErrRootRequiresObject => None
  | Legacy.ErrRootKeyCollision k => Some (ErrRootKeyCollision k)
  | Legacy.ErrMapping from to err => ErrMapping from to <$> sameError err
  | Legacy.ErrMappingAsRoot from err => ErrMappingAsRoot from <$> sameError err
  end.

(** ** Reading a rule list *)

(** The last rule of [mappings] whose destination is [k]. *)
Definition lastKeyed (mappings : list FieldMapping) (k : string)
    : option FieldMapping :=
  last (filter (fun m => To m = k) mappings).

(** The value [extractValue] gives for the source of [m], if any. *)
Definition extracted `{JSONDecoder} (c : Ctx) (m : FieldMapping)
    : option value :=
  match extractValue c (From m) with
  | Ok v => Some v
  | Err _ => None
  end.

(** * Properties *)

Section Properties.
Context `{JSONDecoder}.
Implicit Types (c : Ctx) (st : state) (m : FieldMapping).
Implicit Types (dst obj : gmap string value) (entries : list (string * value)).

(** ** [mergeRootObject] *)

(** What the range loop returns, over entries with distinct keys: the union
    when no key of the entries is in [dst], and otherwise a collision on a
    key that is in both. *)
Lemma mergeRootEntries_spec dst entries :
  NoDup entries.*1 →
  match mergeRootEntries dst entries with
  | Ok dst' =>
      (∀ k, k ∈ entries.*1 → dst !! k = None) ∧ dst' = dst ∪ list_to_map entries
  | Err e =>
      ∃ k, e = ErrRootKeyCollision k ∧ k ∈ entries.*1 ∧ is_Some (dst !! k)
  end.
Proof.
  revert dst. induction entries as [|[k v] rest IH]; intros dst Hnd; simpl.
  - split; [intros k Hk; by apply elem_of_nil in Hk|].
    by rewrite (right_id_L ∅ (∪)).
  - apply NoDup_cons in Hnd as [Hk Hrest].
    destruct (dst !! k) as [w|] eqn:Hdk.
    + exists k. split_and!; [done|apply list_elem_of_here|by eexists].
    + specialize (IH (<[k:=v]> dst) Hrest).
      destruct (mergeRootEntries (<[k:=v]> dst) rest) as [dst'|e].
      * destruct IH as [Hfree ->]. split.
        -- intros k' [->|Hk']%elem_of_cons; [done|].
           specialize (Hfree k' Hk').
           apply lookup_insert_None in Hfree. tauto.
        -- rewrite <-insert_union_l, insert_union_r; [done|done].
      * destruct IH as (k' & -> & Hk' & Hsome). exists k'.
        split_and!; [done|by apply list_elem_of_further|].
        rewrite lookup_insert_ne in Hsome; [done|].
        intros ->. done.
Qed.

Lemma mergeRootObject_spec dst obj :
  match mergeRootObject dst obj with
  | Ok dst' => dst ##ₘ obj ∧ dst' = dst ∪ obj
  | Err e =>
      ∃ k, e = ErrRootKeyCollision k ∧ is_Some (obj !! k) ∧ is_Some (dst !! k)
  end.
Proof.
  unfold mergeRootObject.
  pose proof (mergeRootEntries_spec dst (map_to_list obj)
                (NoDup_fst_map_to_list obj)) as Hspec.
  destruct (mergeRootEntries dst (map_to_list obj)) as [dst'|e].
  - destruct Hspec as [Hfree ->]. rewrite list_to_map_to_list. split; [|done].
    apply map_disjoint_spec. intros k x y Hx Hy.
    rewrite Hfree in Hx; [done|].
    apply list_elem_of_fmap. exists (k, y). split; [done|].
    by apply elem_of_map_to_list.
  - destruct Hspec as (k & -> & Hk & Hsome). exists k. split_and!; [done| |done].
    apply list_elem_of_fmap in Hk as ([k' y] & -> & Hin).
    apply elem_of_map_to_list in Hin. by eexists.
Qed.

(** The order in which the range visits [obj] decides neither whether the
    merge succeeds, nor the merged map, nor the kind of the error. *)
Lemma mergeRootEntries_order dst obj entries :
  entries ≡ₚ map_to_list obj →
  match mergeRootEntries dst entries, mergeRootObject dst obj with
  | Ok dst1, Ok dst2 => dst1 = dst2
  | Err e1, Err e2 => errorKind e1 = errorKind e2
  | _, _ => False
  end.
Proof.
  intros Hperm.
  assert (NoDup entries.*1) as Hnd.
  { rewrite Hperm. apply NoDup_fst_map_to_list. }
  pose proof (mergeRootEntries_spec dst entries Hnd) as H1.
  pose proof (mergeRootObject_spec dst obj) as H2.
  assert (list_to_map entries = obj) as Hobj.
  { rewrite <-(list_to_map_to_list obj). by apply list_to_map_proper. }
  destruct (mergeRootEntries dst entries) as [dst1|e1],
           (mergeRootObject dst obj) as [dst2|e2].
  - destruct H1 as [_ ->], H2 as [_ ->]. by rewrite Hobj.
  - destruct H1 as [Hfree _], H2 as (k & _ & [y Hy] & [x Hx]).
    rewrite Hfree in Hx; [done|].
    rewrite Hperm. apply list_elem_of_fmap. exists (k, y). split; [done|].
    by apply elem_of_map_to_list.
  - destruct H1 as (k & _ & Hk & [x Hx]), H2 as [Hdisj _].
    apply list_elem_of_fmap in Hk as ([k' y] & -> & Hin).
    rewrite Hperm in Hin. apply elem_of_map_to_list in Hin.
    by eapply map_disjoint_spec.
  - destruct H1 as (k1 & -> & _), H2 as (k2 & -> & _). done.
Qed.

Lemma mergeRootObject_empty dst : mergeRootObject dst ∅ = Ok dst.
Proof. unfold mergeRootObject. by rewrite map_to_list_empty. Qed.

(** ** [extractValue] *)

Lemma parseBody_ok raw : ∃ v, parseBody raw = Ok v.
Proof.
  unfold parseBody. destruct (length raw =? 0)%nat; [by eexists|].
  destruct (json_Unmarshal raw); by eexists.
Qed.

Lemma extractValue_body c : extractValue c SourceBody = parseBody (Body c).
Proof. done. Qed.

Lemma extractValue_supported c source :
  source ∈ supportedSources → ∃ v, extractValue c source = Ok v.
Proof.
  unfold supportedSources. rewrite !elem_of_cons, elem_of_nil.
  intros [->|[->|[->|[->|[->|[->|[->|[]]]]]]]];
    try (by eexists). apply parseBody_ok.
Qed.

Lemma extractValue_unsupported c source :
  source ∉ supportedSources →
  extractValue c source = Err (ErrUnsupportedSource source).
Proof.
  unfold supportedSources. rewrite !not_elem_of_cons.
  intros (?&?&?&?&?&?&?&_). unfold extractValue.
  repeat match goal with
    | Hne : source ≠ ?s |- _ =>
        rewrite (proj2 (String.eqb_neq source s) Hne); clear Hne
    end.
  done.
Qed.

(** ** The loop *)

Lemma size_pos_false (o : gmap string value) :
  (0 <? size o)%nat = false ↔ o = ∅.
Proof. rewrite Nat.ltb_ge, <-map_size_empty_iff. lia. Qed.

Lemma rangeMappings_app c st l1 l2 :
  rangeMappings c st (l1 ++ l2) =
  (st' ← rangeMappings c st l1; rangeMappings c st' l2).
Proof.
  revert st. induction l1 as [|m l1 IH]; intros st; simpl; [done|].
  destruct (loopBody c st m); simpl; [apply IH|done].
Qed.

Lemma rangeMappings_cons c st m rest :
  rangeMappings c st (m :: rest) =
  (st' ← loopBody c st m; rangeMappings c st' rest).
Proof. done. Qed.

(** Once a non-object root is set, the body of the loop returns an error for
    whatever rule comes next: a mixed-root error when its source can be
    extracted. *)
Lemma loopBody_after_root c st m :
  rootExcludesKeyed st → hasRootValue st = true →
  ∃ e, loopBody c st m = Err e ∧
       (isOk (extractValue c (From m)) = true → errorKind e = MixedRootError).
Proof.
  intros Hinv Hset. unfold loopBody.
  destruct (extractValue c (From m)) as [value|err]; [|by eexists].
  rewrite Hset, (Hinv Hset).
  destruct (Root m); [|by eexists].
  destruct (assertObject value); by eexists.
Qed.

Lemma loopBody_invariant c st m st' :
  rootExcludesKeyed st → loopBody c st m = Ok st' → rootExcludesKeyed st'.
Proof.
  unfold rootExcludesKeyed, loopBody. intros Hinv Hstep.
  destruct (extractValue c (From m)) as [value|err]; [|done].
  destruct (Root m).
  - destruct (assertObject value) as [obj|].
    + destruct (hasRootValue st) eqn:Hset; [done|].
      destruct (mergeRootObject (output st) obj); [|done].
      injection Hstep as <-. done.
    + destruct (0 <? size (output st))%nat eqn:Hsize; [done|].
      destruct (hasRootValue st); [done|].
      injection Hstep as <-. simpl. intros _. by apply size_pos_false.
  - destruct (hasRootValue st) eqn:Hset; [done|].
    injection Hstep as <-. done.
Qed.

Lemma rangeMappings_invariant c st mappings st' :
  rootExcludesKeyed st → rangeMappings c st mappings = Ok st' →
  rootExcludesKeyed st'.
Proof.
  revert st. induction mappings as [|m rest IH]; intros st Hinv; simpl.
  - by intros [= <-].
  - destruct (loopBody c st m) as [st1|e] eqn:Hstep; [|done]. simpl.
    apply IH. by eapply loopBody_invariant.
Qed.

Lemma initState_invariant : rootExcludesKeyed initState.
Proof. by intros ?. Qed.

Lemma reached_invariant c prefix st :
  rangeMappings c initState prefix = Ok st → rootExcludesKeyed st.
Proof. apply rangeMappings_invariant, initState_invariant. Qed.

(** The result of [buildOutput] when the loop stops in its body at [m],
    after [prefix] has brought it to [st]. *)
Lemma buildOutput_stops c prefix m rest st e :
  rangeMappings c initState prefix = Ok st →
  loopBody c st m = Err e →
  buildOutput c (prefix ++ m :: rest) = Err e.
Proof.
  intros Hpre Hstep. unfold buildOutput.
  by rewrite rangeMappings_app, Hpre; simpl; rewrite Hstep.
Qed.

End Properties.

Section LoopFacts.
Context `{JSONDecoder}.
Implicit Types (c : Ctx) (st : state) (m : FieldMapping).

(** Nothing can follow a non-object root: the loop only succeeds from such a
    state when no rule is left. *)
Lemma rangeMappings_after_root c st mappings st' :
  rootExcludesKeyed st → hasRootValue st = true →
  rangeMappings c st mappings = Ok st' → mappings = [].
Proof.
  intros Hinv Hset. destruct mappings as [|m rest]; [done|]. simpl.
  destruct (loopBody_after_root c st m Hinv Hset) as (e & -> & _). done.
Qed.

Lemma loopBody_scalar_root_sets c st m st' :
  scalarRootRule c m = true → loopBody c st m = Ok st' →
  hasRootValue st' = true.
Proof.
  unfold scalarRootRule, loopBody.
  destruct (extractValue c (From m)) as [value|err];
    [|by rewrite andb_false_r].
  destruct (Root m); [|done]. simpl.
  destruct (assertObject value); [done|]. intros _.
  destruct (0 <? size (output st))%nat; [done|].
  destruct (hasRootValue st); [done|]. by intros [= <-].
Qed.

Lemma rangeMappings_one_scalar_root c st mappings st' :
  rootExcludesKeyed st → rangeMappings c st mappings = Ok st' →
  length (List.filter (scalarRootRule c) mappings) ≤ 1.
Proof.
  revert st. induction mappings as [|m rest IH]; intros st Hinv; simpl; [lia|].
  destruct (loopBody c st m) as [st1|e] eqn:Hstep; [simpl|done]. intros Hrest.
  pose proof (loopBody_invariant c st m st1 Hinv Hstep) as Hinv1.
  destruct (scalarRootRule c m) eqn:Hscalar; [|by eapply IH].
  pose proof (loopBody_scalar_root_sets c st m st1 Hscalar Hstep) as Hset.
  by rewrite (rangeMappings_after_root c st1 rest st' Hinv1 Hset Hrest).
Qed.

Lemma buildOutput_finish c mappings st :
  rangeMappings c initState mappings = Ok st →
  buildOutput c mappings = Ok (finish st).
Proof. unfold buildOutput. by intros ->. Qed.

Lemma buildOutput_Ok_inv c mappings doc :
  buildOutput c mappings = Ok doc →
  ∃ st, rangeMappings c initState mappings = Ok st ∧ doc = finish st.
Proof.
  unfold buildOutput.
  destruct (rangeMappings c initState mappings) as [st|e]; [|done].
  intros [= <-]. by exists st.
Qed.

Lemma loopBody_rootIsNotObject c st m st' :
  rootIsNotObject st → loopBody c st m = Ok st' → rootIsNotObject st'.
Proof.
  unfold rootIsNotObject, loopBody. intros Hinv.
  destruct (extractValue c (From m)) as [value|err]; [|done].
  destruct (Root m).
  - destruct (assertObject value) as [obj|] eqn:Hobj.
    + destruct (hasRootValue st); [done|].
      destruct (mergeRootObject (output st) obj); [|done]. by intros [= <-].
    + destruct (0 <? size (output st))%nat; [done|].
      destruct (hasRootValue st); [done|]. by intros [= <-].
  - destruct (hasRootValue st); [done|]. by intros [= <-].
Qed.

Lemma rangeMappings_rootIsNotObject c st mappings st' :
  rootIsNotObject st → rangeMappings c st mappings = Ok st' →
  rootIsNotObject st'.
Proof.
  revert st. induction mappings as [|m rest IH]; intros st Hinv; simpl.
  - by intros [= <-].
  - destruct (loopBody c st m) as [st1|e] eqn:Hstep; [|done]. simpl.
    apply IH. by eapply loopBody_rootIsNotObject.
Qed.

End LoopFacts.

(** ** Mixed roots *)

(** C1. At most one non-object root exists per request: a list of rules
    on which [buildOutput] succeeds holds at most one root rule whose value
    is not an object.  When the rules before [m] have been processed and the
    value of [m] is extracted, [buildOutput] fails with a mixed-root error in
    each of these cases: [m] is a root rule, its value is not an object, and
    a non-object root is already set or the keyed output already has keys;
    [m] is a keyed rule and a non-object root is already set; [m] is a root
    rule whose value is an object and a non-object root is already set. *)
Theorem buildOutput_mixed_root `{JSONDecoder} (c : Ctx) :
  (∀ mappings doc,
     buildOutput c mappings = Ok doc →
     length (List.filter (scalarRootRule c) mappings) ≤ 1) ∧
  (∀ prefix m rest st value,
     rangeMappings c initState prefix = Ok st →
     extractValue c (From m) = Ok value →
     (Root m = true ∧ assertObject value = None ∧
        (hasRootValue st = true ∨ output st ≠ ∅))
     ∨ (Root m = false ∧ hasRootValue st = true)
     ∨ (Root m = true ∧ is_Some (assertObject value) ∧
          hasRootValue st = true) →
     ∃ e, buildOutput c (prefix ++ m :: rest) = Err e ∧
          errorKind e = MixedRootError).
Proof.
  split.
  - intros mappings doc (st & Hloop & _)%buildOutput_Ok_inv.
    eapply rangeMappings_one_scalar_root; [apply initState_invariant|done].
  - intros prefix m rest st value Hpre Hext Hcase.
    cut (∃ e, loopBody c st m = Err e ∧ errorKind e = MixedRootError).
    { intros (e & Hstep & Hkind). exists e. split; [|done].
      by eapply buildOutput_stops. }
    unfold loopBody. rewrite Hext.
    destruct Hcase as [(-> & -> & Hst)|[(-> & ->)|(-> & [obj ->] & ->)]].
    + destruct (0 <? size (output st))%nat eqn:Hsize; [by eexists|].
      apply size_pos_false in Hsize.
      destruct Hst as [->|Hne]; [by eexists|done].
    + by eexists.
    + by eexists.
Qed.

(** Scenario 4 of the design: [method] as root, then [path] under [p]. *)
Lemma buildOutput_mixed_root_witness :
  ∃ e, buildOutput (request bodyNotJSON [])
         ([root SourceMethod] ++ keyed SourcePath "p" :: []) = Err e ∧
       errorKind e = MixedRootError.
Proof.
  apply (proj2 (buildOutput_mixed_root (request bodyNotJSON []))
           [root SourceMethod] (keyed SourcePath "p") []
           {| output := ∅; rootValue := VString "POST"; hasRootValue := true |}
           (VString "/hook/7")).
  - reflexivity.
  - reflexivity.
  - right. left. split; reflexivity.
Defined.

(** ** The shape of the document *)

(** C9. At every step of the loop, a set non-object root means an empty
    keyed output; so the document [buildOutput] returns is either the keyed
    output, an object, or a single value that is not an object and that no
    keyed field accompanies. *)
Theorem buildOutput_root_excludes_keyed `{JSONDecoder} (c : Ctx)
    (mappings : list FieldMapping) :
  (∀ prefix rest st,
     mappings = prefix ++ rest →
     rangeMappings c initState prefix = Ok st →
     hasRootValue st = true → output st = ∅) ∧
  (∀ doc,
     buildOutput c mappings = Ok doc →
     (∃ st, rangeMappings c initState mappings = Ok st ∧
            hasRootValue st = false ∧ doc = VObject (output st)) ∨
     (∃ st, rangeMappings c initState mappings = Ok st ∧
            hasRootValue st = true ∧ doc = rootValue st ∧
            assertObject doc = None ∧ output st = ∅)).
Proof.
  split.
  - intros prefix rest st _ Hpre. by apply (reached_invariant c prefix).
  - intros doc (st & Hloop & ->)%buildOutput_Ok_inv.
    pose proof (reached_invariant c mappings st Hloop) as Hinv.
    pose proof (rangeMappings_rootIsNotObject c initState mappings st) as Hroot.
    unfold finish. destruct (hasRootValue st) eqn:Hset.
    + right. exists st. split_and!; [done..| |by apply Hinv].
      apply Hroot; [by intros ?|done|done].
    + left. by exists st.
Qed.

(** The empty body merged at the root, then the method as root: the state
    before the second rule has no root and no key, and the document is the
    root value [POST] over an empty keyed output. *)
Lemma buildOutput_root_excludes_keyed_witness :
  let c := request [] [] in
  let mappings := [root SourceBody; root SourceMethod] in
  (hasRootValue initState = true → output initState = ∅) ∧
  ((∃ st, rangeMappings c initState mappings = Ok st ∧
          hasRootValue st = false ∧ VString "POST" = VObject (output st)) ∨
   (∃ st, rangeMappings c initState mappings = Ok st ∧
          hasRootValue st = true ∧ VString "POST" = rootValue st ∧
          assertObject (VString "POST") = None ∧ output st = ∅)).
Proof.
  split.
  - apply (proj1 (buildOutput_root_excludes_keyed (request [] [])
                    [root SourceBody; root SourceMethod])
             [root SourceBody] [root SourceMethod]).
    + reflexivity.
    + reflexivity.
  - apply (proj2 (buildOutput_root_excludes_keyed (request [] [])
                    [root SourceBody; root SourceMethod])).
    reflexivity.
Defined.

(** ** Extraction errors *)

(** C7. When the source of a rule [m] of the list cannot be extracted,
    [buildOutput] fails; and when the loop reaches [m], it returns at once
    the extraction error wrapped with the source and the destination of [m],
    whatever rules follow. *)
Theorem buildOutput_fail_fast `{JSONDecoder} (c : Ctx)
    (mappings : list FieldMapping) (m : FieldMapping) (err : error) :
  m ∈ mappings →
  extractValue c (From m) = Err err →
  isOk (buildOutput c mappings) = false ∧
  (∀ prefix rest st,
     rangeMappings c initState prefix = Ok st →
     buildOutput c (prefix ++ m :: rest)
     = Err (ErrMapping (From m) (To m) err)).
Proof.
  intros Hin Hext.
  assert (∀ st, loopBody c st m = Err (ErrMapping (From m) (To m) err))
    as Hstep.
  { intros st. unfold loopBody. by rewrite Hext. }
  split.
  - apply list_elem_of_split in Hin as (prefix & rest & ->).
    unfold buildOutput. rewrite rangeMappings_app.
    destruct (rangeMappings c initState prefix) as [st|e]; [simpl|done].
    by rewrite Hstep.
  - intros prefix rest st Hpre. by eapply buildOutput_stops.
Qed.

(** A rule reading the source [cookies], after a rule that succeeds and
    before one that would. *)
Lemma buildOutput_fail_fast_witness :
  buildOutput (request [] [])
    ([keyed SourceMethod "method"] ++
     keyed "cookies" "c" :: [keyed SourcePath "path"])
  = Err (ErrMapping "cookies" "c" (ErrUnsupportedSource "cookies")).
Proof.
  apply (proj2 (buildOutput_fail_fast (request [] [])
                  [keyed SourceMethod "method"; keyed "cookies" "c";
                   keyed SourcePath "path"]
                  (keyed "cookies" "c") (ErrUnsupportedSource "cookies")
                  ltac:(apply list_elem_of_further, list_elem_of_here)
                  ltac:(reflexivity))
           [keyed SourceMethod "method"] [keyed SourcePath "path"]
           {| output := {[ "method" := VString "POST" ]};
              rootValue := VNil; hasRootValue := false |}).
  vm_compute. reflexivity.
Defined.

(** ** Keyed rules *)

Section Keyed.
Context `{JSONDecoder}.
Implicit Types (c : Ctx) (st : state) (m : FieldMapping).

(** A keyed rule, when no non-object root is set: [output[m.To] = value],
    with no look at what [output] held at that key. *)
Lemma loopBody_keyed c st m value :
  Root m = false → extractValue c (From m) = Ok value →
  hasRootValue st = false →
  loopBody c st m = Ok {| output := <[To m := value]> (output st);
                          rootValue := rootValue st;
                          hasRootValue := false |}.
Proof. intros Hkeyed Hext Hset. unfold loopBody. by rewrite Hext, Hkeyed, Hset. Qed.

(** The loop over keyed rules with supported sources: it succeeds, sets no
    root, writes the destinations of the rules and no other key, and, when
    the destinations are distinct, leaves under each the value of its
    rule. *)
Lemma rangeMappings_keyed c mappings st :
  Forall (fun m => Root m = false ∧ From m ∈ supportedSources) mappings →
  hasRootValue st = false →
  ∃ st', rangeMappings c st mappings = Ok st' ∧
         hasRootValue st' = false ∧
         dom (output st') = dom (output st) ∪ list_to_set (To <$> mappings) ∧
         (∀ k, k ∉ To <$> mappings → output st' !! k = output st !! k) ∧
         (NoDup (To <$> mappings) →
          ∀ m, m ∈ mappings →
               ∃ v, extractValue c (From m) = Ok v ∧
                    output st' !! To m = Some v).
Proof.
  intros Hall. revert st.
  induction Hall as [|m rest [Hkeyed Hsrc] _ IH]; intros st Hset.
  - exists st. split_and!; [done|done|set_solver|done|].
    intros _ m Hm. by apply elem_of_nil in Hm.
  - destruct (extractValue_supported c (From m) Hsrc) as [value Hext].
    rewrite rangeMappings_cons, (loopBody_keyed c st m value) by done. simpl.
    set (st1 := {| output := <[To m := value]> (output st);
                   rootValue := rootValue st; hasRootValue := false |}).
    destruct (IH st1 eq_refl) as (st' & Hloop & Hset' & Hdom & Hframe & Hval).
    exists st'. split_and!; [done|done| | |].
    + rewrite Hdom. simpl. rewrite dom_insert_L. set_solver.
    + intros k [Hk Hrest]%not_elem_of_cons.
      rewrite Hframe by done. simpl. by rewrite lookup_insert_ne.
    + intros [Hfresh Hnd]%NoDup_cons m' [->|Hm']%elem_of_cons.
      * exists value. split; [done|].
        rewrite Hframe by done. simpl. by rewrite lookup_insert_eq.
      * by apply Hval.
Qed.

End Keyed.

(** C3. On a list of keyed rules (no root rule) with supported sources
    and pairwise distinct destinations, [buildOutput] succeeds and returns an
    object whose keys are the destinations of the rules and which holds,
    under the destination of each rule, the value extracted for that rule.
    In general, when the loop ends in state [st], the result is the
    non-object root if one was set, and the keyed output otherwise. *)
Theorem buildOutput_keyed_document `{JSONDecoder} (c : Ctx)
    (mappings : list FieldMapping) :
  Forall (fun m => Root m = false ∧ From m ∈ supportedSources) mappings →
  NoDup (To <$> mappings) →
  (∃ out,
     buildOutput c mappings = Ok (VObject out) ∧
     dom out = list_to_set (To <$> mappings) ∧
     ∀ m, m ∈ mappings →
          ∃ v, extractValue c (From m) = Ok v ∧ out !! To m = Some v) ∧
  (∀ rules st,
     rangeMappings c initState rules = Ok st →
     buildOutput c rules
     = Ok (if hasRootValue st then rootValue st else VObject (output st))).
Proof.
  intros Hall Hnd. split.
  - destruct (rangeMappings_keyed c mappings initState Hall eq_refl)
      as (st & Hloop & Hset & Hdom & _ & Hval).
    exists (output st). split_and!.
    + rewrite (buildOutput_finish c mappings st Hloop).
      unfold finish. by rewrite Hset.
    + rewrite Hdom. simpl. rewrite dom_empty_L. set_solver.
    + by apply Hval.
  - intros rules st Hloop. by apply buildOutput_finish.
Qed.

(** Scenario 2 of the design, with an empty body: the body under
    [payload], the method under [method]. *)
Lemma buildOutput_keyed_document_witness :
  ∃ out,
    buildOutput (request [] [])
      [keyed SourceBody "payload"; keyed SourceMethod "method"]
    = Ok (VObject out) ∧
    dom out = list_to_set ["payload"; "method"] ∧
    out !! "payload" = Some (VObject ∅) ∧
    out !! "method" = Some (VString "POST").
Proof.
  destruct (proj1 (buildOutput_keyed_document (request [] [])
                     [keyed SourceBody "payload"; keyed SourceMethod "method"]
                     ltac:(apply (bool_decide_unpack _); vm_compute; exact I)
                     ltac:(apply (bool_decide_unpack _); vm_compute; exact I)))
    as (out & Hout & Hdom & Hval).
  exists out. split_and!; [done|done| |].
  - destruct (Hval (keyed SourceBody "payload")) as (v & [= <-] & Hv);
      [apply list_elem_of_here|done].
  - destruct (Hval (keyed SourceMethod "method")) as (v & [= <-] & Hv);
      [apply list_elem_of_further, list_elem_of_here|done].
Defined.

(** Running a keyed rule a second time changes nothing. *)
Lemma loopBody_keyed_twice `{JSONDecoder} (c : Ctx) (st st1 : state)
    (m : FieldMapping) :
  Root m = false → loopBody c st m = Ok st1 → loopBody c st1 m = Ok st1.
Proof.
  intros Hkeyed. unfold loopBody. rewrite Hkeyed.
  destruct (extractValue c (From m)) as [value|err]; [|done].
  destruct (hasRootValue st) eqn:Hset; [done|].
  intros [= <-]. simpl. by rewrite insert_insert_eq.
Qed.

(** C4. Keyed assignment is last-write-wins.  A keyed rule [m] that
    comes when an earlier rule has already written its destination succeeds
    and replaces the value there, with no collision check; two keyed rules
    with one destination yield the value of the second; and a keyed rule
    repeated right after itself yields the same result, document or error,
    as the rule alone. *)
Theorem keyed_last_write_wins `{JSONDecoder} (c : Ctx) (m : FieldMapping) :
  Root m = false →
  (∀ prefix st value,
     rangeMappings c initState prefix = Ok st →
     extractValue c (From m) = Ok value →
     is_Some (output st !! To m) →
     ∃ st', loopBody c st m = Ok st' ∧
            output st' = <[To m := value]> (output st) ∧
            output st' !! To m = Some value) ∧
  (∀ m0 v0 value,
     Root m0 = false → To m0 = To m →
     extractValue c (From m0) = Ok v0 →
     extractValue c (From m) = Ok value →
     buildOutput c [m0; m] = Ok (VObject {[ To m := value ]})) ∧
  (∀ prefix rest,
     buildOutput c (prefix ++ m :: m :: rest)
     = buildOutput c (prefix ++ m :: rest)).
Proof.
  intros Hkeyed. split_and!.
  - intros prefix st value Hpre Hext [old Hold].
    assert (hasRootValue st = false) as Hset.
    { destruct (hasRootValue st) eqn:Hset; [|done].
      rewrite (reached_invariant c prefix st Hpre Hset) in Hold. done. }
    rewrite (loopBody_keyed c st m value) by done.
    eexists. split_and!; [done|done|]. simpl. by rewrite lookup_insert_eq.
  - intros m0 v0 value Hkeyed0 Hto Hext0 Hext. unfold buildOutput. simpl.
    rewrite (loopBody_keyed c initState m0 v0) by done. simpl.
    rewrite (loopBody_keyed c _ m value) by done. simpl.
    unfold finish. simpl. by rewrite Hto, insert_insert_eq, insert_empty.
  - intros prefix rest. unfold buildOutput.
    rewrite !rangeMappings_app.
    destruct (rangeMappings c initState prefix) as [st|e]; [simpl|done].
    destruct (loopBody c st m) as [st1|e] eqn:Hstep; [simpl|done].
    by rewrite (loopBody_keyed_twice c st st1 m Hkeyed Hstep).
Qed.

(** The path, then the method, both under [field]: the document holds the
    method. *)
Lemma keyed_last_write_wins_witness :
  buildOutput (request [] []) [keyed SourcePath "field"; keyed SourceMethod "field"]
  = Ok (VObject {[ "field" := VString "POST" ]}).
Proof.
  apply (proj1 (proj2 (keyed_last_write_wins (request [] [])
                         (keyed SourceMethod "field") eq_refl))
           (keyed SourcePath "field") (VString "/hook/7") (VString "POST")).
  - reflexivity.
  - reflexivity.
  - reflexivity.
  - reflexivity.
Defined.

(** ** The body *)

(** C5. [parseBody] returns a value, never an error, on every byte
    sequence, and [extractValue] for [body] is [parseBody] of the request
    body: the empty sequence gives the empty object, a non-empty sequence
    that [json.Unmarshal] decodes gives the decoded value, and a non-empty
    sequence it rejects gives the bytes as a string. *)
Theorem parseBody_total `{JSONDecoder} (raw : list byte) :
  (∀ c, Body c = raw → extractValue c SourceBody = parseBody raw) ∧
  ∃ v, parseBody raw = Ok v ∧
       (raw = [] → v = VObject ∅) ∧
       (∀ parsed, raw ≠ [] → json_Unmarshal raw = Some parsed → v = parsed) ∧
       (raw ≠ [] → json_Unmarshal raw = None →
        v = VString (String.string_of_list_byte raw)).
Proof.
  split; [by intros c <-|].
  unfold parseBody. destruct raw as [|b raw]; simpl.
  - exists (VObject ∅). by split_and!.
  - destruct (json_Unmarshal (b :: raw)) as [parsed|] eqn:Hdec.
    + exists parsed. split_and!; [done|done| |done].
      by intros ? _ [= <-].
    + eexists. by split_and!.
Qed.

(** The body [not-json] comes out as the string [not-json]. *)
Lemma parseBody_total_witness :
  extractValue (request bodyNotJSON []) SourceBody = Ok (VString "not-json").
Proof.
  destruct (parseBody_total bodyNotJSON) as [Hbody (v & Hv & _ & _ & Hraw)].
  rewrite (Hbody (request bodyNotJSON []) eq_refl), Hv. f_equal.
  apply Hraw.
  - discriminate.
  - reflexivity.
Defined.

(** ** The query *)

Lemma Queries_fold_lookup (args : list (string * string))
    (m0 : gmap string string) (name : string) :
  fold_left (fun m kv => <[kv.1 := kv.2]> m) args m0 !! name
  = match lastValue args name with
    | Some v => Some v
    | None => m0 !! name
    end.
Proof.
  revert m0. induction args as [|[k v] rest IH]; intros m0; simpl; [done|].
  rewrite IH. unfold lastValue. rewrite filter_cons. simpl.
  destruct (decide (k = name)) as [->|Hne].
  - rewrite fmap_cons, last_cons. simpl.
    destruct (last (filter _ rest).*2); [done|]. by rewrite lookup_insert_eq.
  - destruct (last (filter _ rest).*2); [done|]. by rewrite lookup_insert_ne.
Qed.

(** C8, as the code has it.  Extracting [query] yields the
    [map[string]string] of [c.Queries()]: each parameter name of the query
    string is a key, and the one string under it is the value received last
    for that name; no other value is associated with the name. *)
Theorem extractValue_query_last `{JSONDecoder} (c : Ctx) :
  extractValue c SourceQuery = Ok (VStringMap (Queries c)) ∧
  dom (Queries c) = list_to_set (QueryArgs c).*1 ∧
  ∀ name v,
    associates (VStringMap (Queries c)) name v
    ↔ lastValue (QueryArgs c) name = Some v.
Proof.
  assert (∀ name, Queries c !! name = lastValue (QueryArgs c) name) as Hlook.
  { intros name. unfold Queries. rewrite Queries_fold_lookup.
    by destruct (lastValue (QueryArgs c) name). }
  split_and!; [done| |].
  - apply set_eq. intros name.
    rewrite elem_of_dom, Hlook, elem_of_list_to_set. unfold lastValue.
    rewrite list_elem_of_fmap. split.
    + intros [v Hv]. apply last_Some_elem_of in Hv.
      apply list_elem_of_fmap in Hv as ([k v'] & -> & Hin).
      apply list_elem_of_filter in Hin as [Hk Hin]. simpl in Hk.
      by exists (k, v').
    + intros ([k v] & -> & Hin).
      assert ((k, v) ∈ filter (fun kv : string * string => kv.1 = k)
                         (QueryArgs c)) as Hf.
      { by apply list_elem_of_filter. }
      destruct (filter _ (QueryArgs c)) as [|kv l] eqn:Heq;
        [by apply elem_of_nil in Hf|].
      rewrite fmap_cons, last_cons. by destruct (last l.*2).
  - intros name v. simpl. by rewrite Hlook.
Qed.

(** C8, as stated, fails on [?a=1&a=2]: the extracted map holds [2]
    under [a], and [1], which was received for [a], is not associated with
    it. *)
Lemma query_repeated_name_counterexample :
  let c := request [] [("a", "1"); ("a", "2")] in
  ("a", "1") ∈ QueryArgs c ∧
  extractValue c SourceQuery = Ok (VStringMap {[ "a" := "2" ]}) ∧
  ¬ associates (VStringMap {[ "a" := "2" ]}) "a" "1".
Proof.
  split_and!.
  - apply list_elem_of_here.
  - vm_compute. reflexivity.
  - simpl. rewrite lookup_singleton_eq. discriminate.
Qed.

(** ** Root rules *)

Section RootRules.
Context `{JSONDecoder}.
Implicit Types (c : Ctx) (st : state) (m : FieldMapping).
Implicit Types (dst obj : gmap string value).

Lemma mergeRootObject_disjoint dst obj :
  dst ##ₘ obj → mergeRootObject dst obj = Ok (dst ∪ obj).
Proof.
  intros Hdisj. pose proof (mergeRootObject_spec dst obj) as Hspec.
  destruct (mergeRootObject dst obj) as [dst'|e].
  - by destruct Hspec as [_ ->].
  - destruct Hspec as (k & _ & [y Hy] & [x Hx]).
    by destruct (proj1 (map_disjoint_spec dst obj) Hdisj k x y).
Qed.

(** A root rule whose value has the dynamic type [map[string]any], when no
    non-object root is set: every key of the object is merged into the keyed
    output, or the rule fails with a collision on a key that the object and
    the keyed output share. *)
Lemma loopBody_object_root c st m obj :
  Root m = true → extractValue c (From m) = Ok (VObject obj) →
  hasRootValue st = false →
  match loopBody c st m with
  | Ok st' =>
      output st ##ₘ obj ∧
      st' = {| output := output st ∪ obj; rootValue := rootValue st;
               hasRootValue := false |}
  | Err e =>
      ∃ k, e = ErrMappingAsRoot (From m) (ErrRootKeyCollision k) ∧
           is_Some (obj !! k) ∧ is_Some (output st !! k)
  end.
Proof.
  intros Hroot Hext Hset. unfold loopBody. rewrite Hext, Hroot, Hset. simpl.
  pose proof (mergeRootObject_spec (output st) obj) as Hspec.
  destruct (mergeRootObject (output st) obj) as [dst'|e].
  - by destruct Hspec as [? ->].
  - destruct Hspec as (k & -> & ? & ?). by exists k.
Qed.

(** Merging two [map[string]any] objects with no common key into a keyed
    output that shares no key with them gives the same map in both
    orders. *)
Lemma mergeRootObject_comm dst obj1 obj2 :
  dst ##ₘ obj1 → dst ##ₘ obj2 → obj1 ##ₘ obj2 →
  (dst1 ← mergeRootObject dst obj1; mergeRootObject dst1 obj2)
  = (dst2 ← mergeRootObject dst obj2; mergeRootObject dst2 obj1).
Proof.
  intros H1 H2 H12.
  rewrite (mergeRootObject_disjoint dst obj1), (mergeRootObject_disjoint dst obj2)
    by done. simpl.
  rewrite !mergeRootObject_disjoint by (by apply map_disjoint_union_l).
  f_equal. rewrite <-!(assoc_L (∪)). f_equal. by apply map_union_comm.
Qed.

(** A root rule whose value is a map of another Go type is handled as a
    non-object root: it is refused as soon as the keyed output has a key,
    and otherwise stored as the root value. *)
Lemma loopBody_string_map_root c st m value :
  Root m = true → extractValue c (From m) = Ok value →
  assertObject value = None → hasRootValue st = false →
  loopBody c st m =
  if (0 <? size (output st))%nat
  then Err (ErrNonObjectRootAfterObject (From m))
  else Ok {| output := output st; rootValue := value; hasRootValue := true |}.
Proof.
  intros Hroot Hext Hobj Hset. unfold loopBody.
  by rewrite Hext, Hroot, Hobj, Hset.
Qed.

End RootRules.

(** C2 at scenario 3 of the design.  The body [{"id":"1"}] is merged at
    the root, then the query [?id=9] comes as a root rule.  Its value is an
    object for JSON, but a [map[string]string] for Go: the type assertion
    rejects it, and [buildOutput] fails with the mixed-root error of a
    non-object root, not with a collision on [id].  The route parameters, a
    [map[string]string] built by [routeParams], meet the same end.  On the
    body, whose value is a [map[string]any], the collision is found: after
    a keyed rule that wrote [id], and after a first merge of the body. *)
Theorem root_collision_scenario_is_mixed_root :
  let c := request bodyId [("id", "9")] in
  extractValue c SourceBody = Ok (VObject {[ "id" := VString "1" ]}) ∧
  extractValue c SourceQuery = Ok (VStringMap {[ "id" := "9" ]}) ∧
  extractValue c SourceParams = Ok (VStringMap {[ "id" := "7" ]}) ∧
  isJSONObject (VStringMap {[ "id" := "9" ]}) = true ∧
  assertObject (VStringMap {[ "id" := "9" ]}) = None ∧
  buildOutput c [root SourceBody; root SourceQuery]
  = Err (ErrNonObjectRootAfterObject SourceQuery) ∧
  buildOutput c [root SourceBody; root SourceParams]
  = Err (ErrNonObjectRootAfterObject SourceParams) ∧
  errorKind (ErrNonObjectRootAfterObject SourceQuery) = MixedRootError ∧
  buildOutput c [keyed SourceMethod "id"; root SourceBody]
  = Err (ErrMappingAsRoot SourceBody (ErrRootKeyCollision "id")) ∧
  buildOutput c [root SourceBody; root SourceBody]
  = Err (ErrMappingAsRoot SourceBody (ErrRootKeyCollision "id")).
Proof. by split_and!; vm_compute. Qed.

(** C6 at a body and a query with no common key.  The body
    [{"event":"x"}] and the query [?source=test] as root rules: neither
    order succeeds.  Body first, the query is refused as a non-object root
    over keyed output; query first, it is stored as the non-object root and
    the body object is refused after it.  With the common key [id], both
    orders fail too, with those mixed-root errors and no collision. *)
Theorem root_merge_orders_with_query :
  let c := request bodyEvent [("source", "test")] in
  let c' := request bodyId [("id", "9")] in
  extractValue c SourceBody = Ok (VObject {[ "event" := VString "x" ]}) ∧
  extractValue c SourceQuery = Ok (VStringMap {[ "source" := "test" ]}) ∧
  isJSONObject (VStringMap {[ "source" := "test" ]}) = true ∧
  buildOutput c [root SourceBody; root SourceQuery]
  = Err (ErrNonObjectRootAfterObject SourceQuery) ∧
  buildOutput c [root SourceQuery; root SourceBody]
  = Err (ErrObjectRootAfterNonObject SourceBody) ∧
  buildOutput c' [root SourceBody; root SourceQuery]
  = Err (ErrNonObjectRootAfterObject SourceQuery) ∧
  buildOutput c' [root SourceQuery; root SourceBody]
  = Err (ErrObjectRootAfterNonObject SourceBody).
Proof. by split_and!; vm_compute. Qed.

(** ** Empty objects at the root *)

(** C10, as the code has it.  A root rule whose value is the empty
    [map[string]any] (the empty body) succeeds and leaves the state of the
    loop unchanged whenever no non-object root is set.  So after root rules
    that all extract the empty object, a root rule whose value is not an
    object succeeds, and that value is the whole document. *)
Theorem empty_object_root_identity `{JSONDecoder} (c : Ctx)
    (prefix : list FieldMapping) (m' : FieldMapping) (v : value) :
  Forall (fun m => Root m = true ∧ extractValue c (From m) = Ok (VObject ∅))
         prefix →
  Root m' = true → extractValue c (From m') = Ok v → assertObject v = None →
  (∀ st m, m ∈ prefix → hasRootValue st = false → loopBody c st m = Ok st) ∧
  rangeMappings c initState prefix = Ok initState ∧
  buildOutput c (prefix ++ [m']) = Ok v.
Proof.
  intros Hall Hroot' Hext' Hobj'.
  assert (∀ st m, m ∈ prefix → hasRootValue st = false →
                  loopBody c st m = Ok st) as Hstep.
  { intros st m Hm Hset.
    destruct (proj1 (Forall_forall _ _) Hall m Hm) as [Hroot Hext].
    unfold loopBody. rewrite Hext, Hroot, Hset. simpl.
    rewrite mergeRootObject_empty. by destruct st; simplify_eq/=. }
  assert (rangeMappings c initState prefix = Ok initState) as Hloop.
  { clear Hall. induction prefix as [|m rest IH]; [done|]. simpl.
    rewrite Hstep; [simpl|apply list_elem_of_here|done].
    apply IH. intros st m0 Hm0. apply Hstep. by apply list_elem_of_further. }
  split_and!; [done|done|].
  unfold buildOutput. rewrite rangeMappings_app, Hloop. simpl.
  rewrite (loopBody_string_map_root c initState m' v) by done. done.
Qed.

(** The empty body merged at the root, then the method as root: the
    document is the string [POST]. *)
Lemma empty_object_root_identity_witness :
  buildOutput (request [] []) ([root SourceBody] ++ [root SourceMethod])
  = Ok (VString "POST").
Proof.
  apply (empty_object_root_identity (request [] []) [root SourceBody]
           (root SourceMethod) (VString "POST")).
  - apply Forall_cons_2; [split; reflexivity|apply Forall_nil_2].
  - reflexivity.
  - reflexivity.
  - reflexivity.
Defined.

(** C10, as stated, fails when a non-object root is already set: after
    the method as root, the root rule for the empty body, whose value is the
    empty object, is refused. *)
Lemma empty_object_root_counterexample :
  let c := request [] [] in
  extractValue c SourceBody = Ok (VObject ∅) ∧
  buildOutput c [root SourceMethod; root SourceBody]
  = Err (ErrObjectRootAfterNonObject SourceBody).
Proof. by split; vm_compute. Qed.

(** * Further properties of the engine *)

(** ** Sources *)

Section SourceFacts.
Context `{JSONDecoder}.

Lemma extractValue_Err_inv (c : Ctx) (source : Source) (e : error) :
  extractValue c source = Err e →
  (source ∉ supportedSources) ∧ e = ErrUnsupportedSource source.
Proof.
  destruct (decide (source ∈ supportedSources)) as [Hin|Hout].
  - destruct (extractValue_supported c source Hin) as [v ->]. done.
  - rewrite (extractValue_unsupported c source Hout). by intros [= <-].
Qed.

Lemma extractValue_object_inv (c : Ctx) (source : Source) (v : value)
    (obj : gmap string value) :
  extractValue c source = Ok v → assertObject v = Some obj →
  source = SourceBody ∧ v = VObject obj ∧
  ((Body c = [] ∧ obj = ∅) ∨ json_Unmarshal (Body c) = Some (VObject obj)).
Proof.
  intros Hext Hobj.
  assert (v = VObject obj) as ->.
  { destruct v; simpl in Hobj; try done. by injection Hobj as ->. }
  assert (source = SourceBody) as ->.
  { revert Hext. unfold extractValue.
    destruct (String.eqb_spec source SourceBody) as [->|_]; [done|].
    repeat (match goal with
            | |- context [String.eqb source ?s] => destruct (String.eqb source s)
            end; [done|]).
    done. }
  split_and!; [done|done|].
  revert Hext. rewrite extractValue_body. unfold parseBody.
  destruct (Body c) as [|b raw]; simpl.
  - intros [= <-]. by left.
  - destruct (json_Unmarshal (b :: raw)) as [parsed|]; [|done].
    intros [= ->]. by right.
Qed.

End SourceFacts.

(** X1. Whether [extractValue] fails depends on the name of the source
    alone, never on the request: it fails exactly on the names outside the
    seven supported ones, and the error then quotes the name. *)
Theorem extractValue_fails_iff_unsupported `{JSONDecoder} (c : Ctx)
    (source : Source) (e : error) :
  (extractValue c source = Err e
   ↔ ((source ∉ supportedSources) ∧ e = ErrUnsupportedSource source)) ∧
  (isOk (extractValue c source) = true ↔ source ∈ supportedSources).
Proof.
  destruct (decide (source ∈ supportedSources)) as [Hin|Hout].
  - destruct (extractValue_supported c source Hin) as [v Hv]. rewrite Hv.
    split; split; try done. by intros [].
  - rewrite (extractValue_unsupported c source Hout). split; split; try done.
    + by intros [= <-].
    + by intros [_ ->].
Qed.

(** X2. Only [body] can give a [map[string]any]: when the value of a
    source passes the type assertion of [buildOutput], the source is [body],
    and the request body is empty or decodes to that very value. *)
Theorem only_body_yields_object `{JSONDecoder} (c : Ctx) (source : Source)
    (v : value) (obj : gmap string value) :
  extractValue c source = Ok v →
  assertObject v = Some obj →
  source = SourceBody ∧ v = VObject obj ∧
  ((Body c = [] ∧ obj = ∅) ∨ json_Unmarshal (Body c) = Some (VObject obj)).
Proof. apply extractValue_object_inv. Qed.

Lemma only_body_yields_object_witness :
  SourceBody = SourceBody ∧
  VObject {[ "id" := VString "1" ]} = VObject {[ "id" := VString "1" ]} ∧
  ((Body (request bodyId []) = [] ∧
    ({[ "id" := VString "1" ]} : gmap string value) = ∅) ∨
   json_Unmarshal (Body (request bodyId []))
   = Some (VObject {[ "id" := VString "1" ]})).
Proof.
  apply (only_body_yields_object (request bodyId []) SourceBody
           (VObject {[ "id" := VString "1" ]}) {[ "id" := VString "1" ]}).
  - reflexivity.
  - reflexivity.
Defined.

(** ** Root rules on their own and in company *)

Section Roots.
Context `{JSONDecoder}.
Implicit Types (c : Ctx) (st : state) (m : FieldMapping).

Lemma mergeRootObject_into_empty (obj : gmap string value) :
  mergeRootObject ∅ obj = Ok obj.
Proof.
  rewrite mergeRootObject_disjoint by apply map_disjoint_empty_l.
  by rewrite (left_id_L ∅ (∪)).
Qed.

(** A root rule that the type assertion rejects leaves the loop, when it
    succeeds, in a state from which no rule is accepted. *)
Lemma rangeMappings_after_scalar_rule c st m st1 next rest :
  rootExcludesKeyed st → scalarRootRule c m = true →
  loopBody c st m = Ok st1 →
  ∃ e, rangeMappings c st1 (next :: rest) = Err e.
Proof.
  intros Hinv Hscalar Hstep. simpl.
  destruct (loopBody_after_root c st1 next) as (e & -> & _).
  - by eapply loopBody_invariant.
  - by eapply loopBody_scalar_root_sets.
  - by exists e.
Qed.

End Roots.

(** X3. A root rule alone returns what [extractValue] gave for its
    source, whatever its type: an object, a map of the request, a string or
    any decoded JSON value is the whole document. *)
Theorem buildOutput_lone_root `{JSONDecoder} (c : Ctx) (m : FieldMapping)
    (v : value) :
  Root m = true → extractValue c (From m) = Ok v →
  buildOutput c [m] = Ok v.
Proof.
  intros Hroot Hext. unfold buildOutput. simpl. unfold loopBody.
  rewrite Hext, Hroot. simpl.
  destruct v; simpl; try done.
  by rewrite mergeRootObject_into_empty.
Qed.

Lemma buildOutput_lone_root_witness :
  buildOutput (request bodyId []) [root SourceBody]
  = Ok (VObject {[ "id" := VString "1" ]}).
Proof.
  apply (buildOutput_lone_root (request bodyId []) (root SourceBody)).
  - reflexivity.
  - reflexivity.
Defined.

(** X4. No rule may follow a root rule whose value is not a
    [map[string]any]: [buildOutput] fails on every list in which such a rule
    has a successor.  This is the case of every root rule on a source other
    than [body]. *)
Theorem buildOutput_nothing_after_scalar_root `{JSONDecoder} (c : Ctx)
    (prefix : list FieldMapping) (m next : FieldMapping)
    (rest : list FieldMapping) :
  Root m = true →
  From m ≠ SourceBody
  ∨ (∃ v, extractValue c (From m) = Ok v ∧ assertObject v = None) →
  isOk (buildOutput c (prefix ++ m :: next :: rest)) = false.
Proof.
  intros Hroot Hcase. unfold buildOutput. rewrite rangeMappings_app.
  destruct (rangeMappings c initState prefix) as [st|e] eqn:Hpre; [simpl|done].
  destruct (loopBody c st m) as [st1|e] eqn:Hstep; [simpl|done].
  assert (scalarRootRule c m = true) as Hscalar.
  { unfold scalarRootRule. rewrite Hroot. simpl.
    destruct (extractValue c (From m)) as [v|err] eqn:Hext.
    - destruct (assertObject v) as [obj|] eqn:Hobj; [|done].
      destruct Hcase as [Hne|(v' & [= <-] & Hnone)]; [|congruence].
      by destruct (extractValue_object_inv c (From m) v obj Hext Hobj).
    - unfold loopBody in Hstep. by rewrite Hext in Hstep. }
  destruct (rangeMappings_after_scalar_rule c st m st1 next rest) as [e He];
    [by eapply reached_invariant|done|done|].
  simpl in He. by rewrite He.
Qed.

(** The query as root, then the method under a key. *)
Lemma buildOutput_nothing_after_scalar_root_witness :
  isOk (buildOutput (request [] [("source", "test")])
          ([] ++ root SourceQuery :: keyed SourceMethod "method" :: []))
  = false.
Proof.
  apply (buildOutput_nothing_after_scalar_root (request [] [("source", "test")])
           [] (root SourceQuery) (keyed SourceMethod "method") []).
  - reflexivity.
  - left. discriminate.
Defined.

(** ** Keyed rules, in general *)

Section KeyedLists.
Context `{JSONDecoder}.
Implicit Types (c : Ctx) (st : state) (m : FieldMapping).

Lemma lastKeyed_cons m rest k :
  lastKeyed (m :: rest) k =
  match lastKeyed rest k with
  | Some m' => Some m'
  | None => if decide (To m = k) then Some m else None
  end.
Proof.
  unfold lastKeyed. rewrite filter_cons.
  destruct (decide (To m = k)); [|by destruct (last _)].
  by rewrite last_cons.
Qed.

(** The loop over keyed rules with supported sources, from a state with
    no root: each key holds the value of the last rule written to it, or
    what it held before. *)
Lemma rangeMappings_keyed_last c mappings st :
  Forall (fun m => Root m = false ∧ From m ∈ supportedSources) mappings →
  hasRootValue st = false →
  ∃ st', rangeMappings c st mappings = Ok st' ∧
         hasRootValue st' = false ∧
         ∀ k, output st' !! k =
              match lastKeyed mappings k with
              | Some m => extracted c m
              | None => output st !! k
              end.
Proof.
  intros Hall. revert st.
  induction Hall as [|m rest [Hkeyed Hsrc] _ IH]; intros st Hset.
  - by exists st.
  - destruct (extractValue_supported c (From m) Hsrc) as [value Hext].
    rewrite rangeMappings_cons, (loopBody_keyed c st m value) by done. simpl.
    destruct (IH {| output := <[To m := value]> (output st);
                    rootValue := rootValue st; hasRootValue := false |}
                eq_refl) as (st' & Hloop & Hset' & Hval).
    exists st'. split_and!; [done|done|].
    intros k. rewrite Hval, lastKeyed_cons. simpl.
    destruct (lastKeyed rest k) as [m'|]; [done|].
    destruct (decide (To m = k)) as [<-|Hne].
    + rewrite lookup_insert_eq. unfold extracted. by rewrite Hext.
    + by rewrite lookup_insert_ne.
Qed.

End KeyedLists.

(** X5. A list of keyed rules with supported sources never fails,
    repeated destinations or not: the document is an object in which each
    key holds the value of the last rule written to it, and which has no
    other key. *)
Theorem buildOutput_keyed_last_rule `{JSONDecoder} (c : Ctx)
    (mappings : list FieldMapping) :
  Forall (fun m => Root m = false ∧ From m ∈ supportedSources) mappings →
  ∃ out, buildOutput c mappings = Ok (VObject out) ∧
         ∀ k, out !! k = m ← lastKeyed mappings k; extracted c m.
Proof.
  intros Hall.
  destruct (rangeMappings_keyed_last c mappings initState Hall eq_refl)
    as (st & Hloop & Hset & Hval).
  exists (output st). split.
  - rewrite (buildOutput_finish c mappings st Hloop). unfold finish.
    by rewrite Hset.
  - intros k. rewrite Hval. simpl. by destruct (lastKeyed mappings k).
Qed.

(** The path, the IP and then the method under [field], the IP under
    [addr] between them. *)
Lemma buildOutput_keyed_last_rule_witness :
  ∃ out,
    buildOutput (request [] [])
      [keyed SourcePath "field"; keyed SourceIP "addr";
       keyed SourceMethod "field"]
    = Ok (VObject out) ∧
    out !! "field" = Some (VString "POST") ∧
    out !! "addr" = Some (VString "127.0.0.1") ∧
    out !! "other" = None.
Proof.
  destruct (buildOutput_keyed_last_rule (request [] [])
              [keyed SourcePath "field"; keyed SourceIP "addr";
               keyed SourceMethod "field"]
              ltac:(apply (bool_decide_unpack _); vm_compute; exact I))
    as (out & Hout & Hval).
  exists out. split_and!; [done|by rewrite Hval..].
Defined.

(** ** A root merge and a keyed rule on one key *)

(** X6. The order of a root merge and a keyed rule on a key of the
    merged object decides between an overwrite and an error.  The keyed rule
    after the merge replaces the merged value without complaint; the keyed
    rule before it makes the merge fail with a collision on that key. *)
Theorem root_then_keyed_overwrites `{JSONDecoder} (c : Ctx)
    (mr mk : FieldMapping) (obj : gmap string value) (v : value) :
  Root mr = true → Root mk = false →
  extractValue c (From mr) = Ok (VObject obj) →
  extractValue c (From mk) = Ok v →
  is_Some (obj !! To mk) →
  buildOutput c [mr; mk] = Ok (VObject (<[To mk := v]> obj)) ∧
  buildOutput c [mk; mr]
  = Err (ErrMappingAsRoot (From mr) (ErrRootKeyCollision (To mk))).
Proof.
  intros Hroot Hkeyed Hextr Hextk Hkey. split.
  - unfold buildOutput. simpl. unfold loopBody at 2.
    rewrite Hextr, Hroot. simpl. rewrite mergeRootObject_into_empty. simpl.
    by rewrite (loopBody_keyed c _ mk v).
  - unfold buildOutput. simpl.
    rewrite (loopBody_keyed c initState mk v) by done. simpl.
    unfold loopBody. rewrite Hextr, Hroot. simpl.
    pose proof (mergeRootObject_spec (<[To mk := v]> ∅) obj) as Hspec.
    destruct (mergeRootObject (<[To mk := v]> ∅) obj) as [dst|e]; simpl.
    + destruct Hspec as [Hdisj _]. destruct Hkey as [w Hw].
      destruct (proj1 (map_disjoint_spec _ _) Hdisj (To mk) v w);
        [apply lookup_insert_eq|done].
    + destruct Hspec as (k & -> & _ & [x Hx]).
      apply lookup_insert_Some in Hx as [[<- _]|[_ Hx]]; [done|].
      by rewrite lookup_empty in Hx.
Qed.

(** The body [{"id":"1"}] at the root and the method under [id]. *)
Lemma root_then_keyed_overwrites_witness :
  buildOutput (request bodyId []) [root SourceBody; keyed SourceMethod "id"]
  = Ok (VObject (<["id" := VString "POST"]> {[ "id" := VString "1" ]})) ∧
  buildOutput (request bodyId []) [keyed SourceMethod "id"; root SourceBody]
  = Err (ErrMappingAsRoot SourceBody (ErrRootKeyCollision "id")).
Proof.
  apply (root_then_keyed_overwrites (request bodyId []) (root SourceBody)
           (keyed SourceMethod "id") {[ "id" := VString "1" ]}
           (VString "POST")).
  - reflexivity.
  - reflexivity.
  - reflexivity.
  - reflexivity.
  - exists (VString "1"). vm_compute. reflexivity.
Defined.

(** ** When the document is not an object *)

Section Shapes.
Context `{JSONDecoder}.
Implicit Types (c : Ctx) (st : state) (m : FieldMapping).

(** Keyed output, once it has a key and no root is set, stays so to the end
    of the loop. *)
Lemma loopBody_keeps_keys c st m st' :
  hasRootValue st = false → output st ≠ ∅ → loopBody c st m = Ok st' →
  hasRootValue st' = false ∧ output st' ≠ ∅.
Proof.
  intros Hset Hne. unfold loopBody.
  destruct (extractValue c (From m)) as [value|err]; [|done].
  rewrite Hset. destruct (Root m).
  - destruct (assertObject value) as [obj|].
    + pose proof (mergeRootObject_spec (output st) obj) as Hspec.
      destruct (mergeRootObject (output st) obj) as [dst|e]; [|done].
      destruct Hspec as [_ ->]. intros [= <-]. simpl. split; [done|].
      by apply map_positive_l_alt.
    + destruct (0 <? size (output st))%nat eqn:Hsize; [done|].
      by apply size_pos_false in Hsize.
  - intros [= <-]. simpl. split; [done|]. apply insert_non_empty.
Qed.

Lemma rangeMappings_keeps_keys c st mappings st' :
  hasRootValue st = false → output st ≠ ∅ →
  rangeMappings c st mappings = Ok st' →
  hasRootValue st' = false ∧ output st' ≠ ∅.
Proof.
  revert st. induction mappings as [|m rest IH]; intros st Hset Hne; simpl.
  - by intros [= <-].
  - destruct (loopBody c st m) as [st1|e] eqn:Hstep; [simpl|done].
    destruct (loopBody_keeps_keys c st m st1 Hset Hne Hstep). by apply IH.
Qed.

(** A loop that starts with no root and no key and ends with a root ran
    root rules only: merges of the empty object, then the rule that set the
    root, last. *)
Lemma rangeMappings_sets_root c st mappings st' :
  hasRootValue st = false → output st = ∅ →
  rangeMappings c st mappings = Ok st' → hasRootValue st' = true →
  ∃ prefix m,
    mappings = prefix ++ [m] ∧ Root m = true ∧
    extractValue c (From m) = Ok (rootValue st') ∧
    Forall (fun m' => Root m' = true ∧
                      extractValue c (From m') = Ok (VObject ∅)) prefix.
Proof.
  revert st. induction mappings as [|m rest IH]; intros st Hset Hempty; simpl.
  - intros [= <-]. congruence.
  - destruct (loopBody c st m) as [st1|e] eqn:Hstep; [simpl|done].
    intros Hrest Hset'. revert Hstep. unfold loopBody.
    destruct (extractValue c (From m)) as [value|err] eqn:Hext; [|done].
    rewrite Hset, Hempty. destruct (Root m) eqn:Hroot.
    + destruct (assertObject value) as [obj|] eqn:Hobj.
      * rewrite mergeRootObject_into_empty. intros [= <-].
        assert (value = VObject obj) as ->.
        { destruct value; simpl in Hobj; try done. by injection Hobj as ->. }
        destruct (decide (obj = ∅)) as [->|Hne].
        -- destruct (IH {| output := ∅; rootValue := rootValue st;
                           hasRootValue := false |}
                       eq_refl eq_refl Hrest Hset')
             as (prefix & m' & -> & Hroot' & Hext' & Hall).
           exists (m :: prefix), m'. split_and!; [done|done|done|].
           by apply Forall_cons_2.
        -- destruct (rangeMappings_keeps_keys c
                       {| output := obj; rootValue := rootValue st;
                          hasRootValue := false |}
                       rest st' eq_refl Hne Hrest).
           congruence.
      * rewrite map_size_empty. simpl. intros [= <-].
        assert (rest = []) as ->.
        { by apply (rangeMappings_after_root c
                      {| output := ∅; rootValue := value;
                         hasRootValue := true |} rest st'). }
        injection Hrest as <-. exists [], m. by split_and!.
    + intros [= <-].
      destruct (rangeMappings_keeps_keys c
                  {| output := <[To m := value]> ∅; rootValue := rootValue st;
                     hasRootValue := false |}
                  rest st' eq_refl (insert_non_empty _ _ _) Hrest).
      congruence.
Qed.

End Shapes.

(** X7. [buildOutput] returns a document that is not a [map[string]any]
    in one situation only: the last rule is a root rule, the document is the
    value of its source, and every rule before it is a root rule whose value
    is the empty object.  No keyed rule takes part. *)
Theorem buildOutput_bare_document `{JSONDecoder} (c : Ctx)
    (mappings : list FieldMapping) (doc : value) :
  buildOutput c mappings = Ok doc →
  assertObject doc = None →
  ∃ prefix m,
    mappings = prefix ++ [m] ∧ Root m = true ∧
    extractValue c (From m) = Ok doc ∧
    Forall (fun m' => Root m' = true ∧
                      extractValue c (From m') = Ok (VObject ∅)) prefix.
Proof.
  intros (st & Hloop & ->)%buildOutput_Ok_inv. unfold finish.
  destruct (hasRootValue st) eqn:Hset; [intros _|done].
  by apply (rangeMappings_sets_root c initState mappings st).
Qed.

Lemma buildOutput_bare_document_witness :
  ∃ prefix m,
    [root SourceBody; root SourceMethod] = prefix ++ [m] ∧ Root m = true ∧
    extractValue (request [] []) (From m) = Ok (VString "POST") ∧
    Forall (fun m' => Root m' = true ∧
              extractValue (request [] []) (From m') = Ok (VObject ∅)) prefix.
Proof.
  apply (buildOutput_bare_document (request [] [])
           [root SourceBody; root SourceMethod] (VString "POST")).
  - reflexivity.
  - reflexivity.
Defined.

(** ** The keys of an object document *)

Section Keys.
Context `{JSONDecoder}.
Implicit Types (c : Ctx) (st : state) (m : FieldMapping).

(** A loop that ends with no root never had one, and the keys of the keyed
    output at its end are those at its start, the destinations of its keyed
    rules, and the keys of the objects its root rules merged. *)
Lemma rangeMappings_keys c st mappings st' :
  rangeMappings c st mappings = Ok st' → hasRootValue st' = false →
  hasRootValue st = false ∧
  ∀ k, k ∈ dom (output st') ↔
       k ∈ dom (output st)
       ∨ (∃ m, m ∈ mappings ∧ Root m = false ∧ To m = k)
       ∨ (∃ m obj, m ∈ mappings ∧ Root m = true ∧
                   extractValue c (From m) = Ok (VObject obj) ∧ k ∈ dom obj).
Proof.
  revert st. induction mappings as [|m rest IH]; intros st; simpl.
  - intros [= <-] Hset. split; [done|]. intros k. split; [by left|].
    intros [?|[(m & Hm & _)|(m & obj & Hm & _)]];
      [done|by apply elem_of_nil in Hm..].
  - destruct (loopBody c st m) as [st1|e] eqn:Hstep; [simpl|done].
    intros Hrest Hset'. destruct (IH st1 Hrest Hset') as [Hset1 Hkeys].
    revert Hstep. unfold loopBody.
    destruct (extractValue c (From m)) as [value|err] eqn:Hext; [|done].
    destruct (Root m) eqn:Hroot.
    + destruct (assertObject value) as [obj|] eqn:Hobj.
      * assert (value = VObject obj) as ->.
        { destruct value; simpl in Hobj; try done. by injection Hobj as ->. }
        destruct (hasRootValue st) eqn:Hset; [done|].
        pose proof (mergeRootObject_spec (output st) obj) as Hspec.
        destruct (mergeRootObject (output st) obj) as [dst|e]; [|done].
        destruct Hspec as [_ ->]. intros [= <-]. split; [done|].
        intros k. rewrite Hkeys. simpl. rewrite dom_union, elem_of_union.
        split.
        -- intros [[?|?]|[(m' & Hm' & ?)|(m' & obj' & Hm' & ?)]].
           ++ by left.
           ++ right. right. exists m, obj. split_and!; try done.
              apply list_elem_of_here.
           ++ right. left. exists m'. split; [by apply list_elem_of_further|done].
           ++ right. right. exists m', obj'.
              split; [by apply list_elem_of_further|done].
        -- intros [?|[(m' & Hm' & Hk & Hto)|(m' & obj' & Hm' & Hr & He & Hk)]].
           ++ left. by left.
           ++ apply elem_of_cons in Hm' as [->|Hm']; [congruence|].
              right. left. by exists m'.
           ++ apply elem_of_cons in Hm' as [->|Hm'].
              ** rewrite Hext in He. injection He as <-. left. by right.
              ** right. right. by exists m', obj'.
      * destruct (0 <? size (output st))%nat; [done|].
        destruct (hasRootValue st); [done|]. intros [= <-]. done.
    + destruct (hasRootValue st) eqn:Hset; [done|]. intros [= <-].
      split; [done|]. intros k. rewrite Hkeys. simpl.
      rewrite dom_insert, elem_of_union, elem_of_singleton. split.
      * intros [[->|?]|[(m' & Hm' & ?)|(m' & obj' & Hm' & ?)]].
        -- right. left. exists m. split; [apply list_elem_of_here|done].
        -- by left.
        -- right. left. exists m'. split; [by apply list_elem_of_further|done].
        -- right. right. exists m', obj'.
           split; [by apply list_elem_of_further|done].
      * intros [?|[(m' & Hm' & Hk & Hto)|(m' & obj' & Hm' & Hr & He & Hk)]].
        -- left. by right.
        -- apply elem_of_cons in Hm' as [->|Hm']; [left; by left|].
           right. left. by exists m'.
        -- apply elem_of_cons in Hm' as [->|Hm']; [congruence|].
           right. right. by exists m', obj'.
Qed.

End Keys.

(** X8. When [buildOutput] returns an object, no rule's contribution is
    missing from it and nothing else is in it: its keys are exactly the
    destinations of the keyed rules and the keys of the objects extracted
    for the root rules. *)
Theorem buildOutput_object_keys `{JSONDecoder} (c : Ctx)
    (mappings : list FieldMapping) (out : gmap string value) (k : string) :
  buildOutput c mappings = Ok (VObject out) →
  k ∈ dom out ↔
  (∃ m, m ∈ mappings ∧ Root m = false ∧ To m = k)
  ∨ (∃ m obj, m ∈ mappings ∧ Root m = true ∧
              extractValue c (From m) = Ok (VObject obj) ∧ k ∈ dom obj).
Proof.
  intros (st & Hloop & Hdoc)%buildOutput_Ok_inv. unfold finish in Hdoc.
  destruct (hasRootValue st) eqn:Hset.
  - assert (assertObject (rootValue st) = None) as Hnone.
    { by apply (rangeMappings_rootIsNotObject c initState mappings st). }
    by rewrite <-Hdoc in Hnone.
  - injection Hdoc as ->.
    destruct (rangeMappings_keys c initState mappings st Hloop Hset) as [_ Hk].
    rewrite Hk. simpl. rewrite dom_empty, elem_of_empty. tauto.
Qed.

(** Scenario 1 of the design: the body [{"event":"x"}] at the root and the
    headers under [headers_received]. *)
Lemma buildOutput_object_keys_witness :
  "event" ∈ dom (<["headers_received" :=
                     VHeaderMap {[ "Content-Type" := ["application/json"] ]}]>
                   ({[ "event" := VString "x" ]} : gmap string value)) ↔
  (∃ m, m ∈ [root SourceBody; keyed SourceHeaders "headers_received"] ∧
        Root m = false ∧ To m = "event")
  ∨ (∃ m obj, m ∈ [root SourceBody; keyed SourceHeaders "headers_received"] ∧
              Root m = true ∧
              extractValue (request bodyEvent []) (From m) = Ok (VObject obj) ∧
              "event" ∈ dom obj).
Proof.
  apply (buildOutput_object_keys (request bodyEvent [])
           [root SourceBody; keyed SourceHeaders "headers_received"]).
  vm_compute. reflexivity.
Defined.

(** ** Where an error comes from *)

Section Errors.
Context `{JSONDecoder}.
Implicit Types (c : Ctx) (st : state) (m : FieldMapping).

(** A failing loop fails in the body, at a rule that the loop reached. *)
Lemma rangeMappings_Err_inv c st mappings e :
  rangeMappings c st mappings = Err e →
  ∃ prefix m rest st',
    mappings = prefix ++ m :: rest ∧
    rangeMappings c st prefix = Ok st' ∧ loopBody c st' m = Err e.
Proof.
  revert st. induction mappings as [|m rest IH]; intros st; simpl; [done|].
  destruct (loopBody c st m) as [st1|e1] eqn:Hstep; simpl.
  - intros (prefix & m' & rest' & st' & -> & Hpre & Hfail)%IH.
    exists (m :: prefix), m', rest', st'. split_and!; [done| |done].
    simpl. by rewrite Hstep.
  - intros [= ->]. by exists [], m, rest, st.
Qed.

(** The root flag is raised by root rules only. *)
Lemma rangeMappings_root_flag c st mappings st' :
  rangeMappings c st mappings = Ok st' →
  hasRootValue st = false → hasRootValue st' = true →
  ∃ m, m ∈ mappings ∧ Root m = true.
Proof.
  revert st. induction mappings as [|m rest IH]; intros st; simpl.
  - intros [= <-]. congruence.
  - destruct (loopBody c st m) as [st1|e1] eqn:Hstep; [simpl|done].
    intros Hrest Hset Hset'. destruct (Root m) eqn:Hroot.
    + exists m. split; [apply list_elem_of_here|done].
    + destruct (IH st1 Hrest) as (m' & Hm' & Hroot'); [|done|].
      * revert Hstep. unfold loopBody. rewrite Hroot, Hset.
        destruct (extractValue c (From m)); [|done]. by intros [= <-].
      * exists m'. split; [by apply list_elem_of_further|done].
Qed.

End Errors.

(** X9. Each kind of error of [buildOutput] has its cause in the rule
    list.  An unsupported-source error names a rule of the list whose source
    is not one of the seven; a collision is reported for a root rule on
    [body] and no other source; a mixed-root error needs a root rule in the
    list.  So a list of keyed rules with supported sources cannot fail. *)
Theorem buildOutput_error_cause `{JSONDecoder} (c : Ctx)
    (mappings : list FieldMapping) (e : error) :
  buildOutput c mappings = Err e →
  match errorKind e with
  | UnsupportedSourceError =>
      ∃ m, m ∈ mappings ∧ (From m ∉ supportedSources) ∧
           e = ErrMapping (From m) (To m) (ErrUnsupportedSource (From m))
  | RootCollisionError =>
      ∃ m k, m ∈ mappings ∧ Root m = true ∧ From m = SourceBody ∧
             e = ErrMappingAsRoot SourceBody (ErrRootKeyCollision k)
  | MixedRootError => ∃ m, m ∈ mappings ∧ Root m = true
  end.
Proof.
  unfold buildOutput.
  destruct (rangeMappings c initState mappings) as [st|e'] eqn:Hloop; [done|].
  intros [= ->].
  apply rangeMappings_Err_inv in Hloop
    as (prefix & m & rest & st & -> & Hpre & Hfail).
  assert (m ∈ prefix ++ m :: rest) as Hin.
  { apply elem_of_app. right. apply list_elem_of_here. }
  revert Hfail. unfold loopBody.
  destruct (extractValue c (From m)) as [value|err] eqn:Hext.
  - destruct (Root m) eqn:Hroot.
    + destruct (assertObject value) as [obj|] eqn:Hobj.
      * destruct (hasRootValue st); [intros [= <-]; by exists m|].
        pose proof (mergeRootObject_spec (output st) obj) as Hspec.
        destruct (mergeRootObject (output st) obj) as [dst|e']; [done|].
        destruct Hspec as (k & -> & _). intros [= <-]. simpl.
        destruct (extractValue_object_inv c (From m) value obj Hext Hobj)
          as (Hsrc & _). exists m, k. by rewrite Hsrc.
      * destruct (0 <? size (output st))%nat; [intros [= <-]; by exists m|].
        destruct (hasRootValue st); [intros [= <-]; by exists m|done].
    + destruct (hasRootValue st) eqn:Hset; [|done]. intros [= <-]. simpl.
      destruct (rangeMappings_root_flag c initState prefix st Hpre eq_refl Hset)
        as (m' & Hm' & Hroot').
      exists m'. split; [|done]. apply elem_of_app. by left.
  - intros [= <-]. simpl.
    apply extractValue_Err_inv in Hext as [Hout ->].
    simpl. by exists m.
Qed.

(** A rule reading [cookies] among the rules of a list. *)
Lemma buildOutput_error_cause_witness :
  ∃ m, m ∈ [keyed SourceMethod "method"; keyed "cookies" "c"] ∧
       (From m ∉ supportedSources) ∧
       ErrMapping "cookies" "c" (ErrUnsupportedSource "cookies")
       = ErrMapping (From m) (To m) (ErrUnsupportedSource (From m)).
Proof.
  apply (buildOutput_error_cause (request [] [])
           [keyed SourceMethod "method"; keyed "cookies" "c"]
           (ErrMapping "cookies" "c" (ErrUnsupportedSource "cookies"))).
  reflexivity.
Defined.

(** ** [mergeRootObject] on its own *)

(** X10. [mergeRootObject] succeeds exactly when [dst] and [obj] have no
    key in common.  The merged map is then their union: it keeps every entry
    of [dst] and holds every entry of [obj].  When it fails, the key of the
    collision is a key of both. *)
Theorem mergeRootObject_succeeds_iff_disjoint (dst obj : gmap string value) :
  (isOk (mergeRootObject dst obj) = true ↔ dst ##ₘ obj) ∧
  (∀ dst', mergeRootObject dst obj = Ok dst' →
           dst' = dst ∪ obj ∧ dst ⊆ dst' ∧ obj ⊆ dst') ∧
  (∀ e, mergeRootObject dst obj = Err e →
        ∃ k, e = ErrRootKeyCollision k ∧
             is_Some (dst !! k) ∧ is_Some (obj !! k)).
Proof.
  pose proof (mergeRootObject_spec dst obj) as Hspec.
  destruct (mergeRootObject dst obj) as [dst1|e1]; simpl.
  - destruct Hspec as [Hdisj ->]. split_and!; [done| |done].
    intros dst' [= <-]. split_and!; [done|apply map_union_subseteq_l|].
    by apply map_union_subseteq_r.
  - destruct Hspec as (k & -> & [y Hy] & [x Hx]). split_and!; [|done|].
    + split; [done|]. intros Hdisj.
      by destruct (proj1 (map_disjoint_spec dst obj) Hdisj k x y).
    + intros e [= <-]. exists k. split_and!; [done|by eexists..].
Qed.

Lemma mergeRootObject_succeeds_iff_disjoint_witness :
  let dst : gmap string value := {[ "method" := VString "POST" ]} in
  let obj : gmap string value := {[ "id" := VString "1" ]} in
  {[ "id" := VString "1" ]} ∪ dst = dst ∪ obj ∧
  dst ⊆ {[ "id" := VString "1" ]} ∪ dst ∧
  obj ⊆ {[ "id" := VString "1" ]} ∪ dst.
Proof.
  apply (proj1 (proj2 (mergeRootObject_succeeds_iff_disjoint
                         {[ "method" := VString "POST" ]}
                         {[ "id" := VString "1" ]}))).
  vm_compute. reflexivity.
Defined.

(** X11. The order in which Go ranges over [obj] does not matter to the
    caller: for every order of its entries, the loop of [mergeRootObject]
    succeeds with the same map as for any other order, and when it fails the
    key it reports is a key of both maps. *)
Theorem mergeRootObject_any_order (dst obj : gmap string value)
    (entries : list (string * value)) :
  entries ≡ₚ map_to_list obj →
  (∀ dst', mergeRootEntries dst entries = Ok dst'
           ↔ mergeRootObject dst obj = Ok dst') ∧
  (∀ e, mergeRootEntries dst entries = Err e →
        isOk (mergeRootObject dst obj) = false ∧
        ∃ k, e = ErrRootKeyCollision k ∧
             is_Some (dst !! k) ∧ is_Some (obj !! k)).
Proof.
  intros Hperm.
  assert (NoDup entries.*1) as Hnd.
  { rewrite Hperm. apply NoDup_fst_map_to_list. }
  pose proof (mergeRootEntries_spec dst entries Hnd) as Hspec.
  pose proof (mergeRootEntries_order dst obj entries Hperm) as Horder.
  destruct (mergeRootEntries dst entries) as [dst1|e1],
           (mergeRootObject dst obj) as [dst2|e2]; try done.
  - subst dst2. split; [|done]. intros dst'. done.
  - split; [done|]. intros e [= <-]. split; [done|].
    destruct Hspec as (k & -> & Hk & Hsome). exists k.
    split_and!; [done|done|].
    apply list_elem_of_fmap in Hk as ([k' y] & -> & Hin).
    rewrite Hperm in Hin. apply elem_of_map_to_list in Hin. by eexists.
Qed.

(** The entries [a] then [b], and [b] then [a]. *)
Lemma mergeRootObject_any_order_witness :
  let obj : gmap string value := {[ "a" := VNil; "b" := VNil ]} in
  mergeRootEntries ∅ [("b", VNil); ("a", VNil)] = Ok obj
  ↔ mergeRootObject ∅ obj = Ok obj.
Proof.
  intros obj.
  apply (mergeRootObject_any_order ∅ obj [("b", VNil); ("a", VNil)]).
  vm_compute. first [reflexivity | apply perm_swap].
Defined.

(** X12. The order of two root merges does not matter to their outcome:
    merging [obj1] then [obj2] into [dst] succeeds exactly when merging
    [obj2] then [obj1] does, with the same map; otherwise both orders fail
    with a collision. *)
Theorem mergeRootObject_two_merges (dst obj1 obj2 : gmap string value) :
  match (dst1 ← mergeRootObject dst obj1; mergeRootObject dst1 obj2),
        (dst2 ← mergeRootObject dst obj2; mergeRootObject dst2 obj1) with
  | Ok dst12, Ok dst21 => dst12 = dst21 ∧ dst12 = dst ∪ obj1 ∪ obj2
  | Err e1, Err e2 =>
      errorKind e1 = RootCollisionError ∧ errorKind e2 = RootCollisionError
  | _, _ => False
  end.
Proof.
  pose proof (mergeRootObject_spec dst obj1) as H1.
  pose proof (mergeRootObject_spec dst obj2) as H2.
  destruct (mergeRootObject dst obj1) as [dst1|e1] eqn:Hm1,
           (mergeRootObject dst obj2) as [dst2|e2] eqn:Hm2; simpl.
  - destruct H1 as [Hd1 ->], H2 as [Hd2 ->].
    pose proof (mergeRootObject_spec (dst ∪ obj1) obj2) as H12.
    pose proof (mergeRootObject_spec (dst ∪ obj2) obj1) as H21.
    destruct (mergeRootObject (dst ∪ obj1) obj2) as [dst12|e12],
             (mergeRootObject (dst ∪ obj2) obj1) as [dst21|e21].
    + destruct H12 as [H12 ->], H21 as [H21 ->]. split; [|done].
      apply map_disjoint_union_l in H12 as [_ H12].
      rewrite <-!(assoc_L (∪)). f_equal. by apply map_union_comm.
    + destruct H12 as [H12 _], H21 as (k & _ & [y Hy] & [x Hx]).
      apply map_disjoint_union_l in H12 as [_ H12].
      apply lookup_union_Some_raw in Hx as [Hx|[_ Hx]].
      * by destruct (proj1 (map_disjoint_spec dst obj1) Hd1 k x y).
      * by destruct (proj1 (map_disjoint_spec obj1 obj2) H12 k y x).
    + destruct H21 as [H21 _], H12 as (k & _ & [y Hy] & [x Hx]).
      apply map_disjoint_union_l in H21 as [_ H21].
      apply lookup_union_Some_raw in Hx as [Hx|[_ Hx]].
      * by destruct (proj1 (map_disjoint_spec dst obj2) Hd2 k x y).
      * by destruct (proj1 (map_disjoint_spec obj2 obj1) H21 k y x).
    + destruct H12 as (k1 & -> & _), H21 as (k2 & -> & _). done.
  - destruct H1 as [Hd1 ->], H2 as (k & -> & [y Hy] & [x Hx]).
    pose proof (mergeRootObject_spec (dst ∪ obj1) obj2) as H12.
    destruct (mergeRootObject (dst ∪ obj1) obj2) as [dst12|e12].
    + destruct H12 as [H12 _].
      apply map_disjoint_union_l in H12 as [H12 _].
      by destruct (proj1 (map_disjoint_spec dst obj2) H12 k x y).
    + by destruct H12 as (k1 & -> & _).
  - destruct H2 as [Hd2 ->], H1 as (k & -> & [y Hy] & [x Hx]).
    pose proof (mergeRootObject_spec (dst ∪ obj2) obj1) as H21.
    destruct (mergeRootObject (dst ∪ obj2) obj1) as [dst21|e21].
    + destruct H21 as [H21 _].
      apply map_disjoint_union_l in H21 as [H21 _].
      by destruct (proj1 (map_disjoint_spec dst obj1) H21 k x y).
    + by destruct H21 as (k1 & -> & _).
  - by destruct H1 as (k1 & -> & _), H2 as (k2 & -> & _).
Qed.

(** ** Route parameters *)

Lemma routeParams_fold_lookup (c : Ctx) (keys : list string)
    (params : gmap string string) (key : string) :
  fold_left (fun params key => <[key := Params c key]> params) keys params
  !! key
  = if decide (key ∈ keys) then Some (Params c key) else params !! key.
Proof.
  revert params. induction keys as [|k rest IH]; intros params.
  - destruct (decide (key ∈ [])) as [Hin|_]; [by apply elem_of_nil in Hin|done].
  - simpl. rewrite IH.
    destruct (decide (key ∈ rest)) as [Hin|Hout],
             (decide (key ∈ k :: rest)) as [Hin'|Hout']; try done.
    + destruct Hout'. by apply list_elem_of_further.
    + apply elem_of_cons in Hin' as [->|Hin']; [|done].
      by rewrite lookup_insert_eq.
    + apply not_elem_of_cons in Hout' as [Hne _].
      by rewrite lookup_insert_ne.
Qed.

(** X13. [routeParams] holds exactly the parameters that the matched
    route declares, each with the value [c.Params] gives for it, however
    often the route names it; a request with no route has no parameter. *)
Theorem routeParams_lookup (c : Ctx) (key : string) :
  routeParams c !! key =
  match Route c with
  | None => None
  | Some route =>
      if decide (key ∈ Route_Params route) then Some (Params c key) else None
  end.
Proof.
  unfold routeParams. destruct (Route c) as [route|]; [|done].
  by rewrite routeParams_fold_lookup.
Qed.

(** ** The log level *)

(** X14. [parseLogLevel] accepts five names, in lower case only: the
    empty name and [info] for the level Info, [debug], [warn] and [error].
    Any other name gives the zero level with an error that quotes it.  Two
    accepted names give the same level only if they are equal or are the
    empty name and [info]; and whatever accepted level is configured, a
    record of level Error gets through. *)
Theorem parseLogLevel_levels (level : string) :
  ((parseLogLevel level).2 = None
   ↔ level ∈ [""; "info"; "debug"; "warn"; "error"]) ∧
  ((parseLogLevel level).2 ≠ None →
   parseLogLevel level = (0%Z, Some (ErrUnsupportedLogLevel level))) ∧
  (∀ z other,
     parseLogLevel level = (z, None) → parseLogLevel other = (z, None) →
     levelEnabled z LevelError = true ∧
     (level = other ∨ (level ∈ [""; "info"] ∧ other ∈ [""; "info"]))).
Proof.
  assert (∀ l z, parseLogLevel l = (z, None) →
                 (z = LevelInfo ∧ l ∈ [""; "info"]) ∨
                 (z = LevelDebug ∧ l = "debug") ∨
                 (z = LevelWarn ∧ l = "warn") ∨
                 (z = LevelError ∧ l = "error")) as Hinv.
  { intros l z. unfold parseLogLevel.
    destruct (String.eqb_spec l "") as [->|_]; simpl.
    { intros [= <-]. left. split; [done|]. apply list_elem_of_here. }
    destruct (String.eqb_spec l "info") as [->|_]; simpl.
    { intros [= <-]. left. split; [done|].
      apply list_elem_of_further, list_elem_of_here. }
    destruct (String.eqb_spec l "debug") as [->|_].
    { intros [= <-]. right. by left. }
    destruct (String.eqb_spec l "warn") as [->|_].
    { intros [= <-]. right. right. by left. }
    destruct (String.eqb_spec l "error") as [->|_]; [|done].
    intros [= <-]. by repeat right. }
  split_and!.
  - split.
    + intros Hnone. destruct (parseLogLevel level) as [z err] eqn:Hp.
      simpl in Hnone. subst err.
      destruct (Hinv level z Hp) as [[_ Hl]|[[_ ->]|[[_ ->]|[_ ->]]]].
      * apply elem_of_cons in Hl as [->|Hl]; [apply list_elem_of_here|].
        apply elem_of_cons in Hl as [->|Hl]; [|by apply elem_of_nil in Hl].
        apply list_elem_of_further, list_elem_of_here.
      * do 2 apply list_elem_of_further. apply list_elem_of_here.
      * do 3 apply list_elem_of_further. apply list_elem_of_here.
      * do 4 apply list_elem_of_further. apply list_elem_of_here.
    + rewrite !elem_of_cons, elem_of_nil.
      by intros [->|[->|[->|[->|[->|[]]]]]].
  - unfold parseLogLevel.
    destruct (String.eqb level ""); [done|].
    destruct (String.eqb level "info"); [done|]. simpl.
    destruct (String.eqb level "debug"); [done|].
    destruct (String.eqb level "warn"); [done|].
    by destruct (String.eqb level "error").
  - intros z other Hl Ho.
    destruct (Hinv level z Hl) as [[-> Hl1]|[[-> ->]|[[-> ->]|[-> ->]]]];
      (split; [done|]);
      destruct (Hinv other _ Ho) as [[? Ho1]|[[? Ho1]|[[? Ho1]|[? Ho1]]]];
      try done; try (left; by subst).
    by right.
Qed.

(** The empty name and [info]. *)
Lemma parseLogLevel_levels_witness :
  levelEnabled 0 LevelError = true ∧
  ("" = "info" ∨ ("" ∈ [""; "info"] ∧ "info" ∈ [""; "info"])).
Proof.
  apply (proj2 (proj2 (parseLogLevel_levels "")) 0%Z "info").
  - reflexivity.
  - reflexivity.
Defined.

(** ** The default configuration *)

(** X15. The default configuration is one that works on every request:
    its log level is accepted, and [buildOutput] over its mappings returns
    an object with the seven keys [body], [headers], [query], [params],
    [method], [path] and [ip], each holding the value of the source of the
    same name. *)
Theorem defaultConfig_document `{JSONDecoder} (c : Ctx) :
  parseLogLevel (LogLevel defaultConfig) = (LevelInfo, None) ∧
  ∃ out body,
    buildOutput c (Mappings defaultConfig) = Ok (VObject out) ∧
    dom out = list_to_set ["body"; "headers"; "query"; "params"; "method";
                           "path"; "ip"] ∧
    parseBody (Body c) = Ok body ∧
    out !! "body" = Some body ∧
    out !! "headers" = Some (VHeaderMap (GetReqHeaders c)) ∧
    out !! "query" = Some (VStringMap (Queries c)) ∧
    out !! "params" = Some (VStringMap (routeParams c)) ∧
    out !! "method" = Some (VString (Method c)) ∧
    out !! "path" = Some (VString (Path c)) ∧
    out !! "ip" = Some (VString (IP c)).
Proof.
  split; [done|].
  destruct (parseBody_ok (Body c)) as [body Hbody].
  eexists _, body. unfold buildOutput. simpl. unfold loopBody. simpl.
  rewrite extractValue_body, Hbody. simpl.
  split; [reflexivity|]. unfold finish. simpl. by split_and!.
Qed.

(** ** The earlier version and the current one *)

Section Versions.
Context `{JSONDecoder}.
Implicit Types (c : Ctx) (st : state) (m : FieldMapping).
Implicit Types (dst obj out : gmap string value).

Lemma legacy_mergeRootEntries dst (entries : list (string * value)) :
  match Legacy.mergeRootEntries dst entries with
  | Legacy.Done dst' => mergeRootEntries dst entries = Ok dst'
  | Legacy.Failed e =>
      ∃ k, e = Legacy.ErrRootKeyCollision k ∧
           mergeRootEntries dst entries = Err (ErrRootKeyCollision k)
  end.
Proof.
  revert dst. induction entries as [|[k v] rest IH]; intros dst; simpl; [done|].
  destruct (dst !! k); [by exists k|]. apply IH.
Qed.

(** One iteration of the earlier loop against one of the current loop, from
    a state with no root. *)
Lemma legacy_loopBody c st m :
  hasRootValue st = false →
  match Legacy.loopBody c (output st) m with
  | Legacy.Done out =>
      loopBody c st m = Ok {| output := out; rootValue := rootValue st;
                              hasRootValue := false |}
  | Legacy.Failed e =>
      match sameError e with
      | Some e' => loopBody c st m = Err e'
      | None =>
          Root m = true ∧
          ∃ v, extractValue c (From m) = Ok v ∧ assertObject v = None
      end
  end.
Proof.
  intros Hset. unfold Legacy.loopBody, Legacy.extractValue, loopBody.
  destruct (extractValue c (From m)) as [value|err] eqn:Hext.
  - rewrite Hset. destruct (Root m); [|done].
    unfold Legacy.mergeRoot, mergeRootObject.
    destruct (assertObject value) as [obj|] eqn:Hobj;
      [|simpl; split; [done|by exists value]].
    pose proof (legacy_mergeRootEntries (output st) (map_to_list obj)) as Hm.
    destruct (Legacy.mergeRootEntries (output st) (map_to_list obj)).
    + by rewrite Hm.
    + destruct Hm as (k & -> & ->). done.
  - simpl.
    by apply extractValue_Err_inv in Hext as [_ ->].
Qed.

Lemma legacy_rangeMappings c st mappings :
  hasRootValue st = false →
  match Legacy.rangeMappings c (output st) mappings with
  | Legacy.Done out =>
      rangeMappings c st mappings
      = Ok {| output := out; rootValue := rootValue st;
              hasRootValue := false |}
  | Legacy.Failed e =>
      match sameError e with
      | Some e' => rangeMappings c st mappings = Err e'
      | None =>
          ∃ m v, m ∈ mappings ∧ Root m = true ∧
                 extractValue c (From m) = Ok v ∧ assertObject v = None
      end
  end.
Proof.
  revert st. induction mappings as [|m rest IH]; intros st Hset; simpl.
  - destruct st. by simplify_eq/=.
  - pose proof (legacy_loopBody c st m Hset) as Hstep.
    destruct (Legacy.loopBody c (output st) m) as [out1|e1].
    + rewrite Hstep. simpl.
      specialize (IH {| output := out1; rootValue := rootValue st;
                        hasRootValue := false |} eq_refl).
      simpl in IH.
      destruct (Legacy.rangeMappings c out1 rest) as [out|e]; [done|].
      destruct (sameError e); [done|].
      destruct IH as (m' & v & Hm' & ?). exists m', v.
      split; [by apply list_elem_of_further|done].
    + destruct (sameError e1); [by rewrite Hstep|].
      destruct Hstep as (Hroot & v & ?). exists m, v.
      split; [apply list_elem_of_here|done].
Qed.

(** A current loop that ends with no root is a loop of the earlier
    version. *)
Lemma rangeMappings_legacy c st mappings st' :
  rangeMappings c st mappings = Ok st' → hasRootValue st' = false →
  Legacy.rangeMappings c (output st) mappings = Legacy.Done (output st').
Proof.
  intros Hloop Hset'.
  destruct (rangeMappings_keys c st mappings st' Hloop Hset') as [Hset _].
  pose proof (legacy_rangeMappings c st mappings Hset) as Hleg.
  destruct (Legacy.rangeMappings c (output st) mappings) as [out|e].
  - rewrite Hloop in Hleg. by injection Hleg as ->.
  - destruct (sameError e); [by rewrite Hloop in Hleg|].
    destruct Hleg as (m & v & Hm & Hroot & Hext & Hobj).
    apply list_elem_of_split in Hm as (prefix & rest & ->).
    rewrite rangeMappings_app in Hloop.
    destruct (rangeMappings c st prefix) as [st1|e1] eqn:Hpre; [|done].
    simpl in Hloop.
    destruct (loopBody c st1 m) as [st2|e2] eqn:Hstep; [|done].
    simpl in Hloop.
    assert (hasRootValue st2 = true) as Hset2.
    { apply (loopBody_scalar_root_sets c st1 m); [|done].
      unfold scalarRootRule. by rewrite Hroot, Hext, Hobj. }
    destruct (rangeMappings_keys c st2 rest st' Hloop Hset'). congruence.
Qed.

End Versions.

(** X16. The current [buildOutput] extends the earlier one: on every
    request and rule list, the earlier version returns a map exactly when
    the current version returns that map as its document.  The documents
    that only the current version produces are those that are not a
    [map[string]any]. *)
Theorem buildOutput_extends_legacy `{JSONDecoder} (c : Ctx)
    (mappings : list FieldMapping) (out : gmap string value) :
  Legacy.buildOutput c mappings = Legacy.Done out
  ↔ buildOutput c mappings = Ok (VObject out).
Proof.
  unfold Legacy.buildOutput. split.
  - intros Hleg.
    pose proof (legacy_rangeMappings c initState mappings eq_refl) as Hcur.
    simpl in Hcur. rewrite Hleg in Hcur.
    by rewrite (buildOutput_finish c mappings _ Hcur).
  - intros (st & Hloop & Hdoc)%buildOutput_Ok_inv. unfold finish in Hdoc.
    destruct (hasRootValue st) eqn:Hset.
    + assert (assertObject (rootValue st) = None) as Hnone.
      { by apply (rangeMappings_rootIsNotObject c initState mappings st). }
      by rewrite <-Hdoc in Hnone.
    + injection Hdoc as ->.
      by apply (rangeMappings_legacy c initState mappings st).
Qed.

(** X17. An error of the earlier [buildOutput] is, in the current
    version, the same error with the same text, unless it was "root mapping
    requires an object source": then the list holds a root rule whose value
    is not a [map[string]any], which the current version treats as a
    non-object root. *)
Theorem buildOutput_legacy_errors `{JSONDecoder} (c : Ctx)
    (mappings : list FieldMapping) (e : Legacy.error) :
  Legacy.buildOutput c mappings = Legacy.Failed e →
  match sameError e with
  | Some e' => buildOutput c mappings = Err e'
  | None =>
      ∃ m v, m ∈ mappings ∧ Root m = true ∧
             extractValue c (From m) = Ok v ∧ assertObject v = None
  end.
Proof.
  unfold Legacy.buildOutput. intros Hleg.
  pose proof (legacy_rangeMappings c initState mappings eq_refl) as Hcur.
  simpl in Hcur. rewrite Hleg in Hcur.
  destruct (sameError e); [|done]. unfold buildOutput. by rewrite Hcur.
Qed.

(** The method under [id], then the body [{"id":"1"}] at the root: a
    collision on [id] in both versions. *)
Lemma buildOutput_legacy_errors_witness :
  buildOutput (request bodyId []) [keyed SourceMethod "id"; root SourceBody]
  = Err (ErrMappingAsRoot SourceBody (ErrRootKeyCollision "id")).
Proof.
  apply (buildOutput_legacy_errors (request bodyId [])
           [keyed SourceMethod "id"; root SourceBody]
           (Legacy.ErrMappingAsRoot SourceBody (Legacy.ErrRootKeyCollision "id"))).
  vm_compute. reflexivity.
Defined.

(** ** The order of keyed rules *)

Section KeyedOrder.
Context `{JSONDecoder}.
Implicit Types (c : Ctx) (m : FieldMapping).

Lemma filter_destination_short (mappings : list FieldMapping) (k : string) :
  NoDup (To <$> mappings) →
  length (filter (fun m => To m = k) mappings) ≤ 1.
Proof.
  induction mappings as [|m rest IH]; [simpl; lia|].
  rewrite fmap_cons. intros [Hfresh Hnd]%NoDup_cons. rewrite filter_cons.
  destruct (decide (To m = k)) as [Hk|_]; [|by apply IH].
  destruct (filter (fun m => To m = k) rest) as [|m' l] eqn:Hf; [simpl; lia|].
  assert (m' ∈ filter (fun m => To m = k) rest) as Hm'.
  { rewrite Hf. apply list_elem_of_here. }
  apply list_elem_of_filter in Hm' as [Hto Hm'].
  destruct Hfresh. apply list_elem_of_fmap. exists m'.
  split; [congruence|done].
Qed.

Lemma lastKeyed_permutation (l1 l2 : list FieldMapping) (k : string) :
  l1 ≡ₚ l2 → NoDup (To <$> l1) → lastKeyed l1 k = lastKeyed l2 k.
Proof.
  intros Hperm Hnd. unfold lastKeyed.
  pose proof (filter_destination_short l1 k Hnd) as Hlen.
  assert (filter (fun m => To m = k) l1 ≡ₚ filter (fun m => To m = k) l2)
    as Hf by by rewrite Hperm.
  destruct (filter (fun m => To m = k) l1) as [|m [|m' l]]; simpl in Hlen.
  - by apply Permutation_nil_l in Hf as <-.
  - by apply Permutation_singleton_l in Hf as <-.
  - lia.
Qed.

End KeyedOrder.

(** X18. The order of keyed rules with distinct destinations does not
    matter: two lists of such rules with supported sources that are
    permutations of each other give the same document. *)
Theorem buildOutput_keyed_permutation `{JSONDecoder} (c : Ctx)
    (l1 l2 : list FieldMapping) :
  l1 ≡ₚ l2 →
  Forall (fun m => Root m = false ∧ From m ∈ supportedSources) l1 →
  NoDup (To <$> l1) →
  buildOutput c l1 = buildOutput c l2.
Proof.
  intros Hperm Hall Hnd.
  assert (Forall (fun m => Root m = false ∧ From m ∈ supportedSources) l2)
    as Hall2 by by rewrite <-Hperm.
  destruct (rangeMappings_keyed_last c l1 initState Hall eq_refl)
    as (st1 & Hloop1 & Hset1 & Hout1).
  destruct (rangeMappings_keyed_last c l2 initState Hall2 eq_refl)
    as (st2 & Hloop2 & Hset2 & Hout2).
  rewrite (buildOutput_finish c l1 st1 Hloop1),
          (buildOutput_finish c l2 st2 Hloop2).
  unfold finish. rewrite Hset1, Hset2. do 2 f_equal. apply map_eq. intros k.
  by rewrite Hout1, Hout2, (lastKeyed_permutation l1 l2 k Hperm Hnd).
Qed.

(** The method and the path, in both orders. *)
Lemma buildOutput_keyed_permutation_witness :
  buildOutput (request [] [])
    [keyed SourceMethod "method"; keyed SourcePath "path"]
  = buildOutput (request [] [])
      [keyed SourcePath "path"; keyed SourceMethod "method"].
Proof.
  apply (buildOutput_keyed_permutation (request [] [])
           [keyed SourceMethod "method"; keyed SourcePath "path"]
           [keyed SourcePath "path"; keyed SourceMethod "method"]).
  - apply perm_swap.
  - apply (bool_decide_unpack _). vm_compute. exact I.
  - apply (bool_decide_unpack _). vm_compute. exact I.
Defined.

(** ** The first error stands *)

(** X19. The error of [buildOutput] is that of the first rule that
    fails: rules added after a failing list change neither the failure nor
    its error. *)
Theorem buildOutput_first_error `{JSONDecoder} (c : Ctx)
    (mappings more : list FieldMapping) (e : error) :
  buildOutput c mappings = Err e →
  buildOutput c (mappings ++ more) = Err e.
Proof.
  unfold buildOutput. rewrite rangeMappings_app.
  by destruct (rangeMappings c initState mappings).
Qed.

(** Scenario 4 of the design, followed by a rule on the body. *)
Lemma buildOutput_first_error_witness :
  buildOutput (request [] [])
    ([root SourceMethod; keyed SourcePath "p"] ++ [keyed SourceBody "body"])
  = Err (ErrKeyedAfterNonObjectRoot SourcePath).
Proof.
  apply (buildOutput_first_error (request [] [])
           [root SourceMethod; keyed SourcePath "p"]
           [keyed SourceBody "body"]).
  reflexivity.
Defined.
